(** * lld: a verification model of the LinkedIn Learning downloader

    This development embeds [main.go] of [jh125486/lld] and settles the
    properties its specification states about it.

    Go strings are byte sequences.  They are modelled as [string] at the
    interfaces and as [list ascii] inside the string functions, where one
    [ascii] is one byte.  The program's [int] values are modelled as [Z]
    reduced to 64 bits where the program does arithmetic on them. *)

From Stdlib Require Import ZArith Lia Bool Ascii String DecimalString DecimalZ.
From stdpp Require Import base strings list gmap.

Local Open Scope Z_scope.
Local Open Scope list_scope.

(* ===================================================================== *)
(** * Part I: the embedding                                               *)
(* ===================================================================== *)

(** ** Bytes and strings *)

Definition bytes := list ascii.

Definition bytes_of (s : string) : bytes := list_ascii_of_string s.
Definition string_of (b : bytes) : string := string_of_list_ascii b.

Definition code (c : ascii) : N := N_of_ascii c.

Definition byte_in (lo hi : N) (c : ascii) : bool :=
  ((lo <=? code c) && (code c <=? hi))%N.

Definition byte_is (n : N) (c : ascii) : bool := (code c =? n)%N.

(** [bytes_prefix p s]: [strings.HasPrefix(s, p)]. *)
Fixpoint bytes_prefix (p s : bytes) : bool :=
  match p, s with
  | [], _ => true
  | _ :: _, [] => false
  | a :: p', b :: s' => Ascii.eqb a b && bytes_prefix p' s'
  end.

(** ** Package [strings] *)

(** [strings.ReplaceAll(s, old, new)] for a non-empty [old]: the
    occurrences of [old] are found from left to right and do not overlap;
    each is replaced by [new].  [skip] counts the bytes of the current
    occurrence that are still to be dropped.  (The program only calls it
    with a non-empty constant [old]; Go's special treatment of an empty
    [old] is outside this model.) *)
Fixpoint ReplaceAll_from (old new : bytes) (skip : nat) (s : bytes) : bytes :=
  match s with
  | [] => []
  | c :: t =>
      match skip with
      | S k => ReplaceAll_from old new k t
      | O =>
          if bytes_prefix old s
          then new ++ ReplaceAll_from old new (Nat.pred (length old)) t
          else c :: ReplaceAll_from old new O t
      end
  end.

Definition strings_ReplaceAll (s old new : bytes) : bytes :=
  ReplaceAll_from old new O s.

(** The ASCII members of [unicode.IsSpace]: tab, LF, VT, FF, CR, space. *)
Definition asciiSpace (c : ascii) : bool :=
  byte_in 9 13 c || byte_is 32 c.

(** The two-byte UTF-8 encodings of white space: U+0085 and U+00A0. *)
Definition space2 (c1 c2 : ascii) : bool :=
  byte_is 194 c1 && (byte_is 133 c2 || byte_is 160 c2).

(** The three-byte UTF-8 encodings of white space: U+1680, U+2000..U+200A,
    U+2028, U+2029, U+202F, U+205F and U+3000. *)
Definition space3 (c1 c2 c3 : ascii) : bool :=
  (byte_is 225 c1 && byte_is 154 c2 && byte_is 128 c3)
  || (byte_is 226 c1 && byte_is 128 c2
      && (byte_in 128 138 c3 || byte_in 168 169 c3 || byte_is 175 c3))
  || (byte_is 226 c1 && byte_is 129 c2 && byte_is 159 c3)
  || (byte_is 227 c1 && byte_is 128 c2 && byte_is 128 c3).

(** [strings.TrimLeftFunc(s, unicode.IsSpace)]: the runes are decoded from
    the front; a rune is white space exactly when the bytes at that place
    are one of the encodings above (any other byte sequence decodes to a
    rune that is not white space, or to the error rune). *)
Fixpoint trimLeftSpace (s : bytes) : bytes :=
  match s with
  | [] => []
  | c1 :: t1 =>
      if asciiSpace c1 then trimLeftSpace t1
      else
        match t1 with
        | [] => s
        | c2 :: t2 =>
            if space2 c1 c2 then trimLeftSpace t2
            else
              match t2 with
              | [] => s
              | c3 :: t3 => if space3 c1 c2 c3 then trimLeftSpace t3 else s
              end
        end
  end.

(** The same on the reversed string, for the trailing white space: the
    last rune is white space exactly when the string ends with one of the
    encodings ([utf8.DecodeLastRuneInString] steps back to the nearest
    lead byte and accepts it when the encoding ends at the end). *)
Fixpoint trimLeftSpace_rev (r : bytes) : bytes :=
  match r with
  | [] => []
  | c1 :: t1 =>
      if asciiSpace c1 then trimLeftSpace_rev t1
      else
        match t1 with
        | [] => r
        | c2 :: t2 =>
            if space2 c2 c1 then trimLeftSpace_rev t2
            else
              match t2 with
              | [] => r
              | c3 :: t3 => if space3 c3 c2 c1 then trimLeftSpace_rev t3 else r
              end
        end
  end.

Definition trimRightSpace (s : bytes) : bytes :=
  rev (trimLeftSpace_rev (rev s)).

(** [strings.TrimSpace(s)]. *)
Definition strings_TrimSpace (s : bytes) : bytes :=
  trimRightSpace (trimLeftSpace s).

(** ** Package [regexp]: [invalidRE] *)

(** The class [[a-zA-Z0-9._-]] that [invalidRE] negates. *)
Definition validChar (c : ascii) : bool :=
  byte_in 97 122 c || byte_in 65 90 c || byte_in 48 57 c
  || byte_is 46 c || byte_is 95 c || byte_is 45 c.

(** [invalidRE.ReplaceAllString(s, repl)] for
    [invalidRE = `[^a-zA-Z0-9._-]+`]: every maximal run of characters
    outside the class is replaced by [repl].  The members of the class are
    ASCII, and every byte of a multi-byte or ill-formed sequence is
    outside it, so a maximal run of runes outside the class is a maximal
    run of bytes outside it.  [inRun] tells that the previous byte was
    outside the class. *)
Fixpoint invalidRE_replace (repl : bytes) (inRun : bool) (s : bytes) : bytes :=
  match s with
  | [] => []
  | c :: t =>
      if validChar c then c :: invalidRE_replace repl false t
      else if inRun then invalidRE_replace repl true t
      else repl ++ invalidRE_replace repl true t
  end.

Definition invalidRE_ReplaceAllString (s repl : bytes) : bytes :=
  invalidRE_replace repl false s.

(** ** [sanitizeFileName] *)

Definition branding : string := "| LinkedIn Learning".

Definition sanitize_bytes (s : bytes) : bytes :=
  let s := strings_ReplaceAll s (bytes_of branding) [] in
  let s := strings_TrimSpace s in
  invalidRE_ReplaceAllString s (bytes_of "_").

Definition sanitizeFileName (s : string) : string :=
  string_of (sanitize_bytes (bytes_of s)).

(** ** Package [fmt] *)

(** The decimal digits of a natural number ([strconv.Itoa] on it). *)
Definition decimal (n : N) : string := NilEmpty.string_of_uint (N.to_uint n).

(** [fmt.Sprintf("%02d", z)]: sign first, then zeros up to width 2. *)
Definition fmt_02d (z : Z) : string :=
  if z <? 0 then String "-" (decimal (Z.to_N (- z)))
  else if z <? 10 then String "0" (decimal (Z.to_N z))
  else decimal (Z.to_N z).

(** [fmt.Sprintf("%s.%02d.%s", section, index, title)]. *)
Definition fmt_stem (section : string) (index : Z) (title : string) : string :=
  (section +:+ "." +:+ fmt_02d index +:+ "." +:+ title)%string.


(** [strconv.Itoa(z)]. *)
Definition strconv_Itoa (z : Z) : string :=
  if z <? 0 then String "-" (decimal (Z.to_N (- z))) else decimal (Z.to_N z).

(** The one-byte string of a line feed. *)
Definition newline : string := String (ascii_of_N 10) EmptyString.

(** [strings.Join(elems, sep)]. *)
Fixpoint strings_Join (elems : list string) (sep : string) : string :=
  match elems with
  | [] => EmptyString
  | [e] => e
  | e :: rest => e +:+ sep +:+ strings_Join rest sep
  end.

(** ** The data model *)

Record VideoEntry := {
  Href : string;
  Section_ : string;
  Title : string;
  Index : Z;
  Duration : string;
  Transcript : string;
  filename : string
}.

Definition set_Href (h : string) (v : VideoEntry) : VideoEntry :=
  {| Href := h; Section_ := Section_ v; Title := Title v; Index := Index v;
     Duration := Duration v; Transcript := Transcript v; filename := filename v |}.

Definition set_filename (f : string) (v : VideoEntry) : VideoEntry :=
  {| Href := Href v; Section_ := Section_ v; Title := Title v; Index := Index v;
     Duration := Duration v; Transcript := Transcript v; filename := f |}.

Definition set_Transcript (t : string) (v : VideoEntry) : VideoEntry :=
  {| Href := Href v; Section_ := Section_ v; Title := Title v; Index := Index v;
     Duration := Duration v; Transcript := t; filename := filename v |}.

(** Go [error] values: [option Error], [None] for [nil].  The errors that
    the libraries return are opaque; the others are the ones the program
    builds with [fmt.Errorf]. *)
Inductive Error :=
| ErrExternal (msg : string)
| ErrNavigationStopped (cause : Error)
| ErrNoTranscript (href : string)
| ErrScrape (cause : Error)
| ErrCreateFile (name : string) (cause : Error)
| ErrWriteJSON (cause : Error)
| ErrWriteTranscript (cause : Error)
| ErrFindVideo (cause : Error)
| ErrEmptyVideoURL
| ErrCreateRequest (cause : Error)
| ErrDownload (cause : Error)
| ErrStatus (status : string)
| ErrSaveVideo (cause : Error)
| ErrBadURL (cause : Error).

(** ** The course page and [videoParseJS] *)

(** What the script reads of the page.  The strings of the page are held
    in the UTF-8 form in which they reach the Go side. *)
Inductive DomNode :=
| TextNode (textContent : string)
| OtherNode (textContent : string).

Record TocItem := {
  item_link : option string;
  (* [a.classroom-toc-item__link]: its [href], when the element exists *)
  item_title : option (list DomNode);
  (* [.classroom-toc-item__title]: its [childNodes], when the element exists *)
  item_spans : list string
  (* the [innerText] of the [span] elements *)
}.

Record TocSection := {
  toc_title : option string;
  (* [.classroom-toc-section__toggle-title]: its [innerText], when it exists *)
  toc_items : list TocItem
}.

(** The two string methods of the JavaScript engine whose result depends
    on Unicode tables. *)
Record JSRuntime := {
  js_trim : string -> string;
  js_toLowerCase : string -> string
}.

(** One object pushed to [results]. *)
Record RawEntry := {
  raw_href : string;
  raw_section : option string;
  raw_title : string;
  raw_index : Z;
  raw_duration : string
}.

Definition string_nonempty (s : string) : bool :=
  match s with EmptyString => false | _ => true end.

(** [text.endsWith(suffix)]. *)
Definition js_endsWith (text suffix : string) : bool :=
  bytes_prefix (rev (bytes_of suffix)) (rev (bytes_of text)).

(** [text.split(' ')]: [cur] holds the reversed bytes of the piece being
    read. *)
Fixpoint split_space (cur : bytes) (s : bytes) : list bytes :=
  match s with
  | [] => [rev cur]
  | c :: t =>
      if byte_is 32 c then rev cur :: split_space [] t
      else split_space (c :: cur) t
  end.

(** [duration.split(' ').slice(0, -1).join('')]. *)
Definition drop_unit_word (duration : string) : string :=
  string_of (concat (removelast (split_space [] (bytes_of duration)))).

(** [spans.map(el => el.innerText.trim())
       .find(text => text.toLowerCase().endsWith("video"))], or the empty
    string when there is none. *)
Definition find_duration (js : JSRuntime) (spans : list string) : string :=
  match List.find (fun text => js_endsWith (js_toLowerCase js text) "video")
                  (map (js_trim js) spans) with
  | Some text => text
  | None => EmptyString
  end.

Definition is_title_text (js : JSRuntime) (n : DomNode) : bool :=
  match n with
  | TextNode t => string_nonempty (js_trim js t)
  | OtherNode _ => false
  end.

Definition node_text (n : DomNode) : string :=
  match n with TextNode t => t | OtherNode t => t end.

(** The [title] of an item; [None] when the script throws a [TypeError]:
    the title element is missing ([querySelector] gives [null]) or has no
    text node with content ([find] gives [undefined]). *)
Definition item_title_text (js : JSRuntime) (video : TocItem) : option string :=
  match item_title video with
  | None => None
  | Some nodes =>
      match List.find (is_title_text js) nodes with
      | None => None
      | Some n => Some (js_trim js (node_text n))
      end
  end.

(** The inner loop over the items of one section.  [index] is the running
    counter; it is exact, a page holding far fewer than 2^53 items.  The
    title and the duration are computed before the link is tested. *)
Fixpoint parse_items (js : JSRuntime) (sectionName : option string)
    (index : Z) (videos : list TocItem) : option (list RawEntry) :=
  match videos with
  | [] => Some []
  | video :: rest =>
      match item_title_text js video with
      | None => None
      | Some title =>
          let duration := find_duration js (item_spans video) in
          match item_link video with
          | None => parse_items js sectionName index rest
          | Some href =>
              let index := index + 1 in
              match parse_items js sectionName index rest with
              | None => None
              | Some results =>
                  Some ({| raw_href := href; raw_section := sectionName;
                           raw_title := title; raw_index := index;
                           raw_duration := drop_unit_word duration |}
                        :: results)
              end
          end
      end
  end.

(** [videoParseJS]: the outer loop over the sections; [None] when the
    script throws. *)
Fixpoint videoParseJS (js : JSRuntime) (sections : list TocSection)
    : option (list RawEntry) :=
  match sections with
  | [] => Some []
  | section :: rest =>
      let sectionName := option_map (js_trim js) (toc_title section) in
      match parse_items js sectionName 0 (toc_items section) with
      | None => None
      | Some here =>
          match videoParseJS js rest with
          | None => None
          | Some after => Some (here ++ after)
          end
      end
  end.

(** [encoding/json] into [[]VideoEntry]: an [undefined] section is left
    out of the JSON text and the field keeps its zero value. *)
Definition unmarshal_entry (r : RawEntry) : VideoEntry :=
  {| Href := raw_href r;
     Section_ := match raw_section r with Some s => s | None => EmptyString end;
     Title := raw_title r;
     Index := raw_index r;
     Duration := raw_duration r;
     Transcript := EmptyString;
     filename := EmptyString |}.

(** ** Package [net/url] *)

Record URL := {
  Scheme : string;
  Opaque : string;
  User : option (string * option string);
  Host : string;
  Path : string;
  RawPath : string;
  OmitHost : bool;
  ForceQuery : bool;
  RawQuery : string;
  Fragment : string;
  RawFragment : string
}.

Definition set_RawQuery (q : string) (u : URL) : URL :=
  {| Scheme := Scheme u; Opaque := Opaque u; User := User u; Host := Host u;
     Path := Path u; RawPath := RawPath u; OmitHost := OmitHost u;
     ForceQuery := ForceQuery u; RawQuery := q; Fragment := Fragment u;
     RawFragment := RawFragment u |}.

(** [url.Parse] and the [String] method of [URL] are the library's. *)
Record NetURL := {
  url_Parse : string -> Error + URL;
  url_String : URL -> string
}.

(** ** The second half of [parseCourseVideos]: the loop over the entries *)

Definition outputStem (v : VideoEntry) : string :=
  sanitizeFileName (fmt_stem (Section_ v) (Index v) (Title v)).

(** One iteration of [for i, v := range videos]: the entry is rewritten in
    place. *)
Definition finish_entry (net : NetURL) (i : nat) (videos : list VideoEntry)
    : Error + list VideoEntry :=
  match videos !! i with
  | None => inr videos
  | Some v =>
      match url_Parse net (Href v) with
      | inl err => inl (ErrBadURL err)
      | inr u =>
          let u := set_RawQuery EmptyString u in
          let videos := <[i := set_Href (url_String net u) v]> videos in
          inr (alter (set_filename (outputStem v)) i videos)
      end
  end.

Fixpoint finish_entries_from (net : NetURL) (todo : nat) (i : nat)
    (videos : list VideoEntry) : Error + list VideoEntry :=
  match todo with
  | O => inr videos
  | S todo' =>
      match finish_entry net i videos with
      | inl err => inl err
      | inr videos => finish_entries_from net todo' (S i) videos
      end
  end.

Definition finish_entries (net : NetURL) (videos : list VideoEntry)
    : Error + list VideoEntry :=
  finish_entries_from net (length videos) 0%nat videos.

(** ** The world outside the program *)

Inductive LogLine :=
| LogFatalFlags
| LogFatal (err : Error)
| LogFatalExtract (err : Error)
| LogLoggingIn
| LogLoggedIn
| LogParsing
| LogFound (videos sections : nat)
| LogProgress (i n : nat) (section title : string)
| LogVisitFailed (err : Error)
| LogSkipping (err : Error)
| LogNavRetry (err : Error)
| LogRateLimited
| LogTranscriptSaved (name : string)
| LogVideoSaved (name : string)
| LogAllSaved.

Inductive Event :=
| EvLog (line : LogLine)
| EvNewExecAllocator
| EvNewContext
| EvWithTimeout (d : Z)
| EvTimeoutCancel
| EvChromeCancel
| EvAllocCancel
| EvNavigate (url : string)
| EvSleep (d : Z)
| EvScrapeTranscript
| EvFindVideo
| EvCreate (name : string)
| EvNewRequest (url : string)
| EvHTTPDo (url : string)
| EvClose (name : string)
| EvCloseBody.

(** What has been written to a file since it was created. *)
Inductive Written :=
| WText (text : string)
| WJSON (v : VideoEntry)
| WPartial (n : nat) (piece : Written).

Record Response := {
  StatusCode : Z;
  Status : string;
  Body : string
}.

(** The program's surroundings.  Every call that leaves the program takes
    one tick of [now]; what it returns is a function of the tick (and of
    its arguments), so a run is replayed by its [Env].  One call of
    [chromedp.Run] is one such call: its actions (navigate, wait, sleep
    inside the browser, evaluate, click) are not told apart, and an error
    of any of them is the error of the call. *)
Record Env := {
  js : JSRuntime;
  net : NetURL;
  (* [chromedp.Run] in [ssoLogin] *)
  sso_run : nat -> option Error;
  (* [chromedp.Run] in [parseCourseVideos], up to the page the script reads *)
  course_run : nat -> Error + list TocSection;
  (* [chromedp.Run] in [visitVideo]: [rateLimited] and [hasTranscript] *)
  visit_run : nat -> Error + bool * bool;
  (* [chromedp.Run] in [downloadTranscript]: the transcript lines *)
  transcript_run : nat -> Error + list string;
  (* [chromedp.Run] in [downloadVideo]: the [src] attribute *)
  video_run : nat -> Error + string;
  os_Create : nat -> string -> option Error;
  (* a write to an open file: [None], or the bytes written and the error *)
  file_write : nat -> option (nat * Error);
  http_NewRequest : string -> option Error;
  http_Do : nat -> string -> Error + Response
}.

Record World := {
  now : nat;
  trace : list Event;
  files : gmap string (list Written)
}.

Definition tick (w : World) : World :=
  {| now := S (now w); trace := trace w; files := files w |}.

Definition emit (e : Event) (w : World) : World :=
  {| now := now w; trace := trace w ++ [e]; files := files w |}.

Definition log (l : LogLine) (w : World) : World := emit (EvLog l) w.

(** [time.Sleep(d)]. *)
Definition sleep (d : Z) (w : World) : World := emit (EvSleep d) w.

(** [os.Create(name)] when it succeeds: the file exists and is empty. *)
Definition create_file (name : string) (w : World) : World :=
  {| now := now w; trace := trace w; files := <[name := []]> (files w) |}.

Definition append_file (name : string) (d : Written) (w : World) : World :=
  {| now := now w; trace := trace w;
     files := alter (fun ds => ds ++ [d]) name (files w) |}.

(** A write of [d] to the open file [name]. *)
Definition write_file (env : Env) (name : string) (d : Written) (w : World)
    : option Error * World :=
  let t := now w in
  let w := tick w in
  match file_write env t with
  | None => (None, append_file name d w)
  | Some (n, err) => (Some err, append_file name (WPartial n d) w)
  end.

(** ** 64-bit [int] *)

Definition int_wrap (z : Z) : Z :=
  (z + 2 ^ 63) mod 2 ^ 64 - 2 ^ 63.

Definition int_add (a b : Z) : Z := int_wrap (a + b).

(** ** [visitVideo] *)

Definition maxRetry : Z := 6.

(** [fuel] bounds the depth of the recursion; [None] is fuel spent. *)
Fixpoint visitVideo (fuel : nat) (env : Env) (href : string) (backoff : Z)
    (count : Z) (w : World) : option (option Error * World) :=
  match fuel with
  | O => None
  | S fuel =>
      let t := now w in
      let w := tick (emit (EvNavigate href) w) in
      match visit_run env t with
      | inl err =>
          if count >=? maxRetry
          then Some (Some (ErrNavigationStopped err), w)
          else
            let w := log (LogNavRetry err) w in
            let w := sleep backoff w in
            visitVideo fuel env href backoff (int_add count 1) w
      | inr (rateLimited, hasTranscript) =>
          if rateLimited then
            let w := log LogRateLimited w in
            let w := sleep backoff w in
            visitVideo fuel env href backoff (int_add count 1) w
          else if negb hasTranscript then Some (Some (ErrNoTranscript href), w)
          else Some (None, w)
      end
  end.

(** ** [downloadTranscript] *)

Definition transcript_text (video : VideoEntry) : string :=
  ("URL: " +:+ Href video +:+ newline
   +:+ "Section: " +:+ Section_ video +:+ newline
   +:+ "Title: " +:+ Title video +:+ newline
   +:+ "Index: " +:+ strconv_Itoa (Index video) +:+ newline
   +:+ "Duration: " +:+ Duration video +:+ newline
   +:+ "Transcript:" +:+ newline +:+ Transcript video +:+ newline)%string.

Definition downloadTranscript (env : Env) (video : VideoEntry)
    (saveJSON : bool) (w : World) : option Error * World :=
  let t := now w in
  let w := tick (emit EvScrapeTranscript w) in
  match transcript_run env t with
  | inl err => (Some (ErrScrape err), w)
  | inr lines =>
      let video := set_Transcript (strings_Join lines newline) video in
      let ext := if saveJSON then "json" else "txt" in
      let name := (filename video +:+ "." +:+ ext)%string in
      let t := now w in
      let w := tick (emit (EvCreate name) w) in
      match os_Create env t name with
      | Some err => (Some (ErrCreateFile name err), w)
      | None =>
          let w := create_file name w in
          (* [defer f.Close()] runs on each of the returns below *)
          if saveJSON then
            match write_file env name (WJSON video) w with
            | (Some err, w) => (Some (ErrWriteJSON err), emit (EvClose name) w)
            | (None, w) =>
                let w := log (LogTranscriptSaved name) w in
                (None, emit (EvClose name) w)
            end
          else
            match write_file env name (WText (transcript_text video)) w with
            | (Some err, w) =>
                (Some (ErrWriteTranscript err), emit (EvClose name) w)
            | (None, w) =>
                let w := log (LogTranscriptSaved name) w in
                (None, emit (EvClose name) w)
            end
      end
  end.

(** ** [downloadVideo] *)

Definition http_StatusOK : Z := 200.

Definition downloadVideo (env : Env) (video : VideoEntry) (w : World)
    : option Error * World :=
  let t := now w in
  let w := tick (emit EvFindVideo w) in
  match video_run env t with
  | inl err => (Some (ErrFindVideo err), w)
  | inr videoURL =>
      if negb (string_nonempty videoURL) then (Some ErrEmptyVideoURL, w)
      else
        let name := (filename video +:+ ".mp4")%string in
        let t := now w in
        let w := tick (emit (EvCreate name) w) in
        match os_Create env t name with
        | Some err => (Some (ErrCreateFile name err), w)
        | None =>
            let w := create_file name w in
            (* [defer f.Close()] runs on each of the returns below *)
            let w := emit (EvNewRequest videoURL) w in
            match http_NewRequest env videoURL with
            | Some err => (Some (ErrCreateRequest err), emit (EvClose name) w)
            | None =>
                let t := now w in
                let w := tick (emit (EvHTTPDo videoURL) w) in
                match http_Do env t videoURL with
                | inl err => (Some (ErrDownload err), emit (EvClose name) w)
                | inr resp =>
                    (* [defer resp.Body.Close()] runs first from here on *)
                    if negb (StatusCode resp =? http_StatusOK) then
                      (Some (ErrStatus (Status resp)),
                       emit (EvClose name) (emit EvCloseBody w))
                    else
                      match write_file env name (WText (Body resp)) w with
                      | (Some err, w) =>
                          (Some (ErrSaveVideo err),
                           emit (EvClose name) (emit EvCloseBody w))
                      | (None, w) =>
                          let w := log (LogVideoSaved name) w in
                          (None, emit (EvClose name) (emit EvCloseBody w))
                      end
                end
            end
        end
  end.

(** ** [parseCourseVideos], [ssoLogin], [newChromeDPCtx], [countSections] *)

Definition parseCourseVideos (env : Env) (courseURL : string) (w : World)
    : (Error + list VideoEntry) * World :=
  let w := log LogParsing w in
  let t := now w in
  let w := tick (emit (EvNavigate courseURL) w) in
  match course_run env t with
  | inl err => (inl err, w)
  | inr page =>
      match videoParseJS (js env) page with
      | None => (inl (ErrExternal "exception"), w)
      | Some results =>
          (finish_entries (net env) (map unmarshal_entry results), w)
      end
  end.

Definition ssoLogin (env : Env) (u : string) (w : World)
    : option Error * World :=
  let w := log LogLoggingIn w in
  let t := now w in
  let w := tick (emit (EvNavigate u) w) in
  (sso_run env t, w).

(** The three contexts are created; the returned [cancel] is [cancel_all]
    below. *)
Definition newChromeDPCtx (to : Z) (w : World) : World :=
  emit (EvWithTimeout to) (emit EvNewContext (emit EvNewExecAllocator w)).

(** The combined cancel function. *)
Definition cancel_all (w : World) : World :=
  emit EvAllocCancel (emit EvChromeCancel (emit EvTimeoutCancel w)).

Definition countSections (videos : list VideoEntry) : nat :=
  size (list_to_set (map Section_ videos) : gset string).

(** ** [main] *)

Record Flags := {
  ssoURL : string;
  courseURL : string;
  dlTranscripts : bool;
  saveJSON : bool;
  dlVideos : bool;
  timeout : Z;
  backoff : Z
}.

(** One iteration of the loop over the lessons; every [continue] is a
    return from it. *)
Definition lesson (fuel : nat) (env : Env) (fl : Flags) (n : nat) (i : nat)
    (video : VideoEntry) (w : World) : option World :=
  let w := log (LogProgress (i + 1) n (Section_ video) (Title video)) w in
  match visitVideo fuel env (Href video) (backoff fl) 0 w with
  | None => None
  | Some (Some err, w) => Some (log (LogVisitFailed err) w)
  | Some (None, w) =>
      let after_transcript :=
        if dlTranscripts fl then
          match downloadTranscript env video (saveJSON fl) w with
          | (Some err, w) => inl (log (LogSkipping err) w)
          | (None, w) => inr w
          end
        else inr w in
      match after_transcript with
      | inl w => Some w
      | inr w =>
          if dlVideos fl then
            match downloadVideo env video w with
            | (Some err, w) => Some (log (LogSkipping err) w)
            | (None, w) => Some w
            end
          else Some w
      end
  end.

Fixpoint lessons (fuel : nat) (env : Env) (fl : Flags) (n : nat) (i : nat)
    (videos : list VideoEntry) (w : World) : option World :=
  match videos with
  | [] => Some w
  | video :: rest =>
      match lesson fuel env fl n i video w with
      | None => None
      | Some w => lessons fuel env fl n (S i) rest w
      end
  end.

(** How the body of [main] ends: it returns, or it calls [os.Exit]
    (through [log.Fatal]). *)
Inductive Ending :=
| Returns
| OsExit (status : Z).

(** [main] from the first use of the session to its last statement. *)
Definition main_session (fuel : nat) (env : Env) (fl : Flags) (w : World)
    : option (Ending * World) :=
  match ssoLogin env (ssoURL fl) w with
  | (Some err, w) => Some (OsExit 1, log (LogFatal err) w)
  | (None, w) =>
      let w := log LogLoggedIn w in
      match parseCourseVideos env (courseURL fl) w with
      | (inl err, w) => Some (OsExit 1, log (LogFatalExtract err) w)
      | (inr videos, w) =>
          let w := log (LogFound (length videos) (countSections videos)) w in
          match lessons fuel env fl (length videos) 0 videos w with
          | None => None
          | Some w => Some (Returns, log LogAllSaved w)
          end
      end
  end.

(** [main]: the exit status of the process and the final world.  A
    deferred call runs when the function returns; [os.Exit] ends the
    process at once and runs none. *)
Definition main (fuel : nat) (env : Env) (fl : Flags) (w : World)
    : option (Z * World) :=
  if negb (dlVideos fl) && negb (dlTranscripts fl)
  then Some (1, log LogFatalFlags w)
  else
    let w := newChromeDPCtx (timeout fl) w in
    (* [defer cancel()] *)
    match main_session fuel env fl w with
    | None => None
    | Some (Returns, w) => Some (0, cancel_all w)
    | Some (OsExit status, w) => Some (status, w)
    end.

Definition world0 : World := {| now := 0; trace := []; files := ∅ |}.

(* ===================================================================== *)
(** * Part II: the vocabulary of the statements and the examples          *)
(* ===================================================================== *)

(** ** Surroundings for the examples *)

Definition ascii_lower (c : ascii) : ascii :=
  if byte_in 65 90 c then ascii_of_N (code c + 32) else c.

(** A JavaScript runtime that is exact on ASCII text. *)
Definition example_js : JSRuntime :=
  {| js_trim := fun s => string_of (strings_TrimSpace (bytes_of s));
     js_toLowerCase := fun s => string_of (map ascii_lower (bytes_of s)) |}.

(** [split_first n s]: the bytes before the first byte [n] of [s], and the
    bytes after it when there is one. *)
Fixpoint split_first (n : N) (s : bytes) : bytes * option bytes :=
  match s with
  | [] => ([], None)
  | c :: t =>
      if byte_is n c then ([], Some t)
      else let (a, b) := split_first n t in (c :: a, b)
  end.

Definition isCTL (c : ascii) : bool := byte_in 0 31 c || byte_is 127 c.

Definition ishex (c : ascii) : bool :=
  byte_in 48 57 c || byte_in 97 102 c || byte_in 65 70 c.

(** A [%] that two hexadecimal digits do not follow. *)
Fixpoint bad_escape (s : bytes) : bool :=
  match s with
  | [] => false
  | c :: t =>
      if byte_is 37 c then
        match t with
        | a :: b :: _ => negb (ishex a && ishex b) || bad_escape t
        | _ => true
        end
      else bad_escape t
  end.

(** A stand-in for [net/url] that knows four things of it: a control
    character is refused, and so is a broken escape; the fragment starts
    at the first [#] and the query at the first [?] before it.  All that
    precedes the query is kept in [Path]. *)
Definition example_Parse (s : string) : Error + URL :=
  if existsb isCTL (bytes_of s)
  then inl (ErrExternal "net/url: invalid control character in URL")
  else if bad_escape (bytes_of s)
  then inl (ErrExternal "invalid URL escape")
  else
    let (rest, frag) := split_first 35 (bytes_of s) in
    let (path, query) := split_first 63 rest in
    inr {| Scheme := EmptyString; Opaque := EmptyString; User := None; Host := EmptyString;
           Path := string_of path; RawPath := EmptyString; OmitHost := false;
           ForceQuery := match query with Some [] => true | _ => false end;
           RawQuery := match query with Some q => string_of q | None => EmptyString end;
           Fragment := match frag with Some f => string_of f | None => EmptyString end;
           RawFragment := EmptyString |}.

Definition example_String (u : URL) : string :=
  (Path u
   +:+ (if ForceQuery u || string_nonempty (RawQuery u)
        then "?" +:+ RawQuery u else EmptyString)
   +:+ (if string_nonempty (Fragment u) then "#" +:+ Fragment u else EmptyString))%string.

Definition example_net : NetURL :=
  {| url_Parse := example_Parse; url_String := example_String |}.

Definition example_item (href title : string) : TocItem :=
  {| item_link := Some href;
     item_title := Some [OtherNode EmptyString; TextNode title];
     item_spans := ["3m 12s video"] |}.

Definition example_page : list TocSection :=
  [ {| toc_title := Some "Introduction";
       toc_items := [ example_item "https://example.com/learning/c/welcome?u=1" "Welcome";
                      example_item "https://example.com/learning/c/setup?u=1" "Setup" ] |};
    {| toc_title := Some "Conclusion";
       toc_items := [ example_item "https://example.com/learning/c/bye?u=1" "Next steps" ] |} ].

(** Surroundings in which every call succeeds. *)
Definition example_env : Env :=
  {| js := example_js;
     net := example_net;
     sso_run := fun _ => None;
     course_run := fun _ => inr example_page;
     visit_run := fun _ => inr (false, true);
     transcript_run := fun _ => inr ["Hello."; "Goodbye."];
     video_run := fun _ => inr "https://cdn.example.com/v.mp4";
     os_Create := fun _ _ => None;
     file_write := fun _ => None;
     http_NewRequest := fun _ => None;
     http_Do := fun _ _ =>
       inr {| StatusCode := 200; Status := "200 OK"; Body := "video" |} |}.

Definition with_visit_run (f : nat -> Error + bool * bool) (env : Env) : Env :=
  {| js := js env; net := net env; sso_run := sso_run env;
     course_run := course_run env; visit_run := f;
     transcript_run := transcript_run env; video_run := video_run env;
     os_Create := os_Create env; file_write := file_write env;
     http_NewRequest := http_NewRequest env; http_Do := http_Do env |}.

Definition with_sso_run (f : nat -> option Error) (env : Env) : Env :=
  {| js := js env; net := net env; sso_run := f;
     course_run := course_run env; visit_run := visit_run env;
     transcript_run := transcript_run env; video_run := video_run env;
     os_Create := os_Create env; file_write := file_write env;
     http_NewRequest := http_NewRequest env; http_Do := http_Do env |}.

Definition with_course_run (f : nat -> Error + list TocSection) (env : Env) : Env :=
  {| js := js env; net := net env; sso_run := sso_run env;
     course_run := f; visit_run := visit_run env;
     transcript_run := transcript_run env; video_run := video_run env;
     os_Create := os_Create env; file_write := file_write env;
     http_NewRequest := http_NewRequest env; http_Do := http_Do env |}.

Definition with_http_Do (f : nat -> string -> Error + Response) (env : Env) : Env :=
  {| js := js env; net := net env; sso_run := sso_run env;
     course_run := course_run env; visit_run := visit_run env;
     transcript_run := transcript_run env; video_run := video_run env;
     os_Create := os_Create env; file_write := file_write env;
     http_NewRequest := http_NewRequest env; http_Do := f |}.

Definition example_flags : Flags :=
  {| ssoURL := "https://example.com/sso";
     courseURL := "https://example.com/learning/c";
     dlTranscripts := true; saveJSON := false; dlVideos := true;
     timeout := 3600000000000; backoff := 60000000000 |}.

(** ** What a trace tells *)

(** What a trace tells: the navigations, the sleeps, the lessons begun. *)
Definition navigations (evs : list Event) : list string :=
  omap (fun e => match e with EvNavigate u => Some u | _ => None end) evs.

Definition sleeps (evs : list Event) : list Z :=
  omap (fun e => match e with EvSleep d => Some d | _ => None end) evs.

Definition lessons_begun (evs : list Event) : list (nat * nat * string * string) :=
  omap (fun e => match e with
                 | EvLog (LogProgress i n s t) => Some (i, n, s, t)
                 | _ => None
                 end) evs.

Definition is_cancel (e : Event) : bool :=
  match e with
  | EvTimeoutCancel | EvChromeCancel | EvAllocCancel => true
  | _ => false
  end.

(** ** Characters and numbers *)

(** The bytes that a white-space encoding can hold. *)
Definition spaceByte (c : ascii) : bool :=
  asciiSpace c || (128 <=? code c)%N.

(** The class without the dot: what separates the parts of a stem does
    not occur in it. *)
Definition stemSafe (c : ascii) : bool := validChar c && negb (byte_is 46 c).


(** ** Courses and stems *)



Definition entry (section : string) (index : Z) (title : string) : VideoEntry :=
  {| Href := "https://example.com/learning/c/x"; Section_ := section;
     Title := title; Index := index; Duration := EmptyString; Transcript := EmptyString;
     filename := EmptyString |}.



(** What the loop makes of one entry whose link parses to [u]. *)
Definition finished (net : NetURL) (v : VideoEntry) (u : URL) : VideoEntry :=
  set_filename (outputStem v)
    (set_Href (url_String net (set_RawQuery EmptyString u)) v).

(** The loop, entry by entry. *)
Fixpoint finish_list (net : NetURL) (videos : list VideoEntry)
    : Error + list VideoEntry :=
  match videos with
  | [] => inr []
  | v :: rest =>
      match url_Parse net (Href v) with
      | inl err => inl (ErrBadURL err)
      | inr u =>
          match finish_list net rest with
          | inl err => inl err
          | inr rest' => inr (finished net v u :: rest')
          end
      end
  end.

(** Text without a bar, at the ends of which stands no byte that an
    encoding of white space holds: an ASCII character that is not white
    space, that is. *)
Definition tidy (s : bytes) : Prop :=
  Forall (fun c => Ascii.eqb "|" c = false) s
  /\ (forall c t, s = c :: t -> spaceByte c = false)
  /\ (forall c t, rev s = c :: t -> spaceByte c = false).

(** The name as the specification words it: the parts are sanitized one
    by one and joined by dots. *)
Definition componentwise_stem (v : VideoEntry) : string :=
  (sanitizeFileName (Section_ v) +:+ "." +:+ fmt_02d (Index v) +:+ "."
   +:+ sanitizeFileName (Title v))%string.



(** ** Events of a run *)

(** [grows P w w']: from [w] to [w'] the trace has only grown, by events
    that satisfy [P]. *)
Definition grows (P : Event -> bool) (w w' : World) : Prop :=
  exists evs, trace w' = trace w ++ evs /\ forallb P evs = true.

(** The events of one call of [visitVideo href]. *)
Definition visit_event (href : string) (e : Event) : bool :=
  match e with
  | EvNavigate u => String.eqb u href
  | EvSleep _ => true
  | EvLog (LogNavRetry _) => true
  | EvLog LogRateLimited => true
  | _ => false
  end.

(** The events of the two fetchers. *)
Definition fetch_event (e : Event) : bool :=
  match e with
  | EvScrapeTranscript | EvFindVideo | EvCreate _ | EvNewRequest _
  | EvHTTPDo _ | EvClose _ | EvCloseBody => true
  | EvLog (LogTranscriptSaved _) | EvLog (LogVideoSaved _) => true
  | _ => false
  end.

(** The events of one lesson after its progress line. *)
Definition lesson_event (href : string) (e : Event) : bool :=
  visit_event href e || fetch_event e
  || match e with
     | EvLog (LogVisitFailed _) | EvLog (LogSkipping _) => true
     | _ => false
     end.

(** A lesson without a transcript, met on the third attempt. *)
Definition env_no_transcript : Env :=
  with_visit_run (fun _ => inr (false, false)) example_env.

(** The page is rate limited for the first [n] attempts and ready after. *)
Definition env_rate_limited (n : nat) : Env :=
  with_visit_run (fun t => if (t <? n)%nat then inr (true, true)
                           else inr (false, true)) example_env.

(** The navigation fails at every attempt. *)
Definition env_offline : Env :=
  with_visit_run (fun _ => inl (ErrExternal "net::ERR_INTERNET_DISCONNECTED"))
                 example_env.

(** The page is rate limited at every attempt. *)
Definition env_always_rate_limited : Env :=
  with_visit_run (fun _ => inr (true, true)) example_env.

(** The progress lines of the lessons [videos], the first of which has
    the position [i] (counted from 0) among [n]. *)
Fixpoint progress_lines (n i : nat) (videos : list VideoEntry)
    : list (nat * nat * string * string) :=
  match videos with
  | [] => []
  | v :: rest => (i + 1, n, Section_ v, Title v)%nat :: progress_lines n (S i) rest
  end.

(** The events of the loop when the lessons have the links [hrefs]. *)
Definition loop_event (hrefs : list string) (e : Event) : bool :=
  match e with
  | EvLog (LogProgress _ _ _ _) => true
  | EvNavigate u => existsb (String.eqb u) hrefs
  | _ => lesson_event EmptyString e
  end.

(** The two steps before the loop: the login, then the extraction. *)
Definition setup (env : Env) (fl : Flags) (w : World) : Error + list VideoEntry :=
  match ssoLogin env (ssoURL fl) (newChromeDPCtx (timeout fl) w) with
  | (Some err, _) => inl err
  | (None, w) => fst (parseCourseVideos env (courseURL fl) (log LogLoggedIn w))
  end.

(** The events up to the end of the extraction. *)
Definition setup_events (fl : Flags) : list Event :=
  [ EvNewExecAllocator; EvNewContext; EvWithTimeout (timeout fl);
    EvLog LogLoggingIn; EvNavigate (ssoURL fl) ].

Definition extraction_events (fl : Flags) : list Event :=
  [ EvLog LogLoggedIn; EvLog LogParsing; EvNavigate (courseURL fl) ].

Definition teardown_events : list Event :=
  [ EvTimeoutCancel; EvChromeCancel; EvAllocCancel ].


(** The login times out. *)
Definition env_login_fails : Env :=
  with_sso_run (fun _ => Some (ErrExternal "context deadline exceeded"))
               example_env.






(** ** Pages *)

(** The links of the items that have one, in the order of the page. *)
Definition links (items : list TocItem) : list string :=
  omap item_link items.

(** The item has a title element with a text node that is not blank. *)
Definition titled (js : JSRuntime) (video : TocItem) : Prop :=
  item_title_text js video <> None.

(** The items of the page that have a link, and the indices that a page
    with these sections is due: 1, 2, ... anew in each section. *)
Definition page_links (page : list TocSection) : list string :=
  concat (map (fun s => links (toc_items s)) page).

Definition page_indices (page : list TocSection) : list Z :=
  concat (map (fun s => map Z.of_nat (seq 1 (length (links (toc_items s)))))
              page).

Definition all_titled (js : JSRuntime) (page : list TocSection) : Prop :=
  Forall (fun s => Forall (titled js) (toc_items s)) page.

(** A lesson whose title is held by an element of its own, not by a text
    node. *)
Definition untitled_page : list TocSection :=
  [ {| toc_title := Some "Introduction";
       toc_items :=
         [ example_item "https://example.com/learning/c/welcome?u=1" "Welcome";
           {| item_link := Some "https://example.com/learning/c/quiz?u=1";
              item_title := Some [OtherNode "Chapter Quiz"];
              item_spans := ["2 questions"] |} ] |} ].

Definition env_untitled : Env :=
  with_course_run (fun _ => inr untitled_page) example_env.

(** Two sections of two items; one item of the second has no link. *)
Definition gapped_page : list TocSection :=
  [ {| toc_title := Some "Introduction";
       toc_items :=
         [ example_item "https://example.com/learning/c/welcome" "Welcome";
           example_item "https://example.com/learning/c/setup" "Setup" ] |};
    {| toc_title := Some "Conclusion";
       toc_items :=
         [ {| item_link := None;
              item_title := Some [TextNode "Locked"];
              item_spans := [] |};
           example_item "https://example.com/learning/c/bye" "Next steps" ] |} ].

(** The server answers 403, and a file of an earlier run is in place. *)
Definition env_forbidden : Env :=
  with_http_Do (fun _ _ => inr {| StatusCode := 403; Status := "403 Forbidden";
                                  Body := "denied" |}) example_env.

Definition stored_video : VideoEntry :=
  {| Href := "https://example.com/learning/c/welcome";
     Section_ := "Introduction"; Title := "Welcome"; Index := 1;
     Duration := "3m12s"; Transcript := EmptyString;
     filename := "Introduction.01.Welcome" |}.

Definition world_with_old_file : World :=
  {| now := 0; trace := [];
     files := {[ "Introduction.01.Welcome.mp4" := [WText "old video"] ]} |}.

(** ** More vocabulary: the attempts of [visitVideo] *)

(** The navigations and the sleeps of a trace, in their order. *)
Definition is_attempt_event (e : Event) : bool :=
  match e with
  | EvNavigate _ | EvSleep _ => true
  | _ => false
  end.

(** [n + 1] attempts at [href]: a navigation, then [n] times a sleep of
    [backoff] and a navigation. *)
Fixpoint retry_pattern (n : nat) (href : string) (backoff : Z) : list Event :=
  match n with
  | O => [EvNavigate href]
  | S n => EvNavigate href :: EvSleep backoff :: retry_pattern n href backoff
  end.



(** ** More vocabulary: the events of the fetchers, by lesson *)

(** [n] is [stem] followed by one of [exts]. *)
Definition named (stem : string) (exts : list string) (n : string) : bool :=
  existsb (fun ext => String.eqb n (stem +:+ ext)) exts.

(** The events of [downloadTranscript] for a lesson with the stem [stem]. *)
Definition transcript_event (stem : string) (e : Event) : bool :=
  match e with
  | EvScrapeTranscript => true
  | EvCreate n | EvClose n | EvLog (LogTranscriptSaved n) =>
      named stem [".txt"; ".json"] n
  | _ => false
  end.

(** The events of [downloadVideo] for a lesson with the stem [stem]. *)
Definition video_event (stem : string) (e : Event) : bool :=
  match e with
  | EvFindVideo | EvNewRequest _ | EvHTTPDo _ | EvCloseBody => true
  | EvCreate n | EvClose n | EvLog (LogVideoSaved n) => named stem [".mp4"] n
  | _ => false
  end.

(** The events of one lesson after its progress line, under the flags. *)
Definition asked_event (fl : Flags) (video : VideoEntry) (e : Event) : bool :=
  visit_event (Href video) e
  || (dlTranscripts fl && transcript_event (filename video) e)
  || (dlVideos fl && video_event (filename video) e)
  || match e with
     | EvLog (LogVisitFailed _) | EvLog (LogSkipping _) => true
     | _ => false
     end.

(** The events of the loop over [videos], under the flags. *)
Definition run_event (fl : Flags) (videos : list VideoEntry) (e : Event) : bool :=
  match e with
  | EvLog (LogProgress _ _ _ _) => true
  | _ => existsb (fun v => asked_event fl v e) videos
  end.

(** The events that only the download of a video makes, and those that
    only the download of a transcript makes. *)
Definition video_only (e : Event) : bool :=
  match e with
  | EvFindVideo | EvNewRequest _ | EvHTTPDo _ | EvCloseBody => true
  | EvLog (LogVideoSaved _) => true
  | _ => false
  end.

Definition transcript_only (e : Event) : bool :=
  match e with
  | EvScrapeTranscript | EvLog (LogTranscriptSaved _) => true
  | _ => false
  end.

Definition is_session_event (e : Event) : bool :=
  match e with
  | EvNewExecAllocator | EvNewContext | EvWithTimeout _ => true
  | _ => is_cancel e
  end.

Definition in_class (s : string) : Prop :=
  Forall (fun c => validChar c = true) (bytes_of s).

Definition transcripts_only_flags : Flags :=
  {| ssoURL := "https://example.com/sso";
     courseURL := "https://example.com/learning/c";
     dlTranscripts := true; saveJSON := true; dlVideos := false;
     timeout := 3600000000000; backoff := 60000000000 |}.

(** The second lesson cannot be reached: its navigation fails 7 times. *)
Definition env_unreachable_lesson : Env :=
  with_visit_run (fun t => if (9 <=? t)%nat && (t <=? 15)%nat
                           then inl (ErrExternal "net::ERR_TIMED_OUT")
                           else inr (false, true)) example_env.

(** The transcript lines never become visible. *)
Definition env_no_lines : Env :=
  {| js := example_js; net := example_net;
     sso_run := fun _ => None;
     course_run := fun _ => inr example_page;
     visit_run := fun _ => inr (false, true);
     transcript_run := fun _ => inl (ErrExternal "context deadline exceeded");
     video_run := fun _ => inr "https://cdn.example.com/v.mp4";
     os_Create := fun _ _ => None;
     file_write := fun _ => None;
     http_NewRequest := fun _ => None;
     http_Do := fun _ _ =>
       inr {| StatusCode := 200; Status := "200 OK"; Body := "video" |} |}.

Definition final_world (r : option (Z * World)) : World :=
  match r with
  | Some (_, w') => w'
  | None => world0
  end.

Definition lesson_line (n i : nat) (video : VideoEntry) : LogLine :=
  LogProgress (i + 1) n (Section_ video) (Title video).

(** ** More vocabulary: files and closing *)

Definition mp4_name (video : VideoEntry) : string :=
  (filename video +:+ ".mp4")%string.

Definition transcript_name (video : VideoEntry) (saveJSON : bool) : string :=
  (filename video +:+ (if saveJSON then ".json" else ".txt"))%string.

(** The record that [downloadTranscript] writes for the scraped [lines]. *)
Definition transcript_record (video : VideoEntry) (saveJSON : bool)
    (lines : list string) : Written :=
  let video := set_Transcript (strings_Join lines newline) video in
  if saveJSON then WJSON video else WText (transcript_text video).

(** [downloadVideo] gets as far as creating its file. *)
Definition video_opened (env : Env) (video : VideoEntry) (w : World) : bool :=
  match video_run env (now w) with
  | inl _ => false
  | inr videoURL =>
      string_nonempty videoURL
      && match os_Create env (S (now w)) (mp4_name video) with
         | None => true
         | Some _ => false
         end
  end.

(** [downloadVideo] gets a response, whatever its status. *)
Definition video_answered (env : Env) (video : VideoEntry) (w : World) : bool :=
  match video_run env (now w) with
  | inl _ => false
  | inr videoURL =>
      match http_NewRequest env videoURL, http_Do env (S (S (now w))) videoURL with
      | None, inr _ => true
      | _, _ => false
      end
  end.

Definition is_close (e : Event) : bool :=
  match e with
  | EvClose _ | EvCloseBody => true
  | _ => false
  end.

Definition not_space (c : ascii) : bool := negb (byte_is 32 c).

(** The copy of the body breaks off after 1024 bytes. *)
Definition env_broken_copy : Env :=
  {| js := example_js; net := example_net;
     sso_run := fun _ => None;
     course_run := fun _ => inr example_page;
     visit_run := fun _ => inr (false, true);
     transcript_run := fun _ => inr ["Hello."; "Goodbye."];
     video_run := fun _ => inr "https://cdn.example.com/v.mp4";
     os_Create := fun _ _ => None;
     file_write := fun _ => Some (1024%nat, ErrExternal "unexpected EOF");
     http_NewRequest := fun _ => None;
     http_Do := fun _ _ =>
       inr {| StatusCode := 200; Status := "200 OK"; Body := "video" |} |}.

(** The world after one retry of a rate-limited lesson. *)
Definition world_after_retry : World :=
  match visitVideo 2 (env_rate_limited 1) "https://example.com/learning/c/x"
                   60 0 world0 with
  | Some (_, w') => w'
  | None => world0
  end.

Definition no_bar (s : bytes) : Prop :=
  Forall (fun c => Ascii.eqb "|" c = false) s.

(* ===================================================================== *)
(** * Part III: the properties                                             *)
(* ===================================================================== *)


(** ** Bytes and strings *)

Lemma bytes_of_string_of (b : bytes) : bytes_of (string_of b) = b.
Proof. apply list_ascii_of_string_of_list_ascii. Qed.

Lemma string_of_bytes_of (s : string) : string_of (bytes_of s) = s.
Proof. apply string_of_list_ascii_of_string. Qed.

Lemma bytes_of_inj (s t : string) : bytes_of s = bytes_of t -> s = t.
Proof.
  intros H. rewrite <- (string_of_bytes_of s), <- (string_of_bytes_of t).
  now rewrite H.
Qed.

Lemma bytes_of_app (s t : string) :
  bytes_of (s +:+ t) = bytes_of s ++ bytes_of t.
Proof. induction s as [|c s IH]; simpl; [reflexivity | now rewrite IH]. Qed.

Lemma byte_is_true (n : N) (c : ascii) : byte_is n c = true -> code c = n.
Proof. unfold byte_is. apply N.eqb_eq. Qed.

Lemma byte_is_other (n : N) (c : ascii) : code c <> n -> byte_is n c = false.
Proof. unfold byte_is. apply N.eqb_neq. Qed.

Lemma byte_in_true (lo hi : N) (c : ascii) :
  byte_in lo hi c = true -> (lo <= code c <= hi)%N.
Proof.
  unfold byte_in. rewrite andb_true_iff, !N.leb_le. tauto.
Qed.

Lemma byte_in_below (lo hi : N) (c : ascii) :
  (code c < lo)%N -> byte_in lo hi c = false.
Proof.
  intros H. unfold byte_in. apply andb_false_iff. left. apply N.leb_gt, H.
Qed.

(** ** The character class and white space *)

Lemma validChar_low (c : ascii) :
  validChar c = true -> (code c < 128)%N /\ asciiSpace c = false.
Proof.
  destruct c as [[] [] [] [] [] [] [] []]; vm_compute; intuition congruence.
Qed.

Lemma validChar_not_bar (c : ascii) :
  validChar c = true -> Ascii.eqb "|" c = false.
Proof.
  destruct c as [[] [] [] [] [] [] [] []]; vm_compute; congruence.
Qed.

Lemma validChar_not_spaceByte (c : ascii) :
  validChar c = true -> spaceByte c = false.
Proof.
  intros H. destruct (validChar_low c H) as [Hlt Hsp].
  unfold spaceByte. rewrite Hsp. simpl. apply N.leb_gt, Hlt.
Qed.

Lemma high_spaceByte (c : ascii) : (128 <= code c)%N -> spaceByte c = true.
Proof.
  intros H. unfold spaceByte. apply orb_true_iff. right. apply N.leb_le, H.
Qed.

Lemma asciiSpace_spaceByte (c : ascii) : asciiSpace c = true -> spaceByte c = true.
Proof. intros H. unfold spaceByte. now rewrite H. Qed.

Lemma space2_spaceByte (c1 c2 : ascii) :
  space2 c1 c2 = true -> spaceByte c1 = true /\ spaceByte c2 = true.
Proof.
  unfold space2. intros H. apply andb_true_iff in H as [H1 H2].
  apply byte_is_true in H1.
  apply orb_true_iff in H2 as [H2|H2]; apply byte_is_true in H2;
    split; apply high_spaceByte; lia.
Qed.

Lemma space3_spaceByte (c1 c2 c3 : ascii) :
  space3 c1 c2 c3 = true ->
  spaceByte c1 = true /\ spaceByte c2 = true /\ spaceByte c3 = true.
Proof.
  unfold space3. intros H.
  repeat (apply orb_true_iff in H as [H|H]);
    repeat match goal with
           | H : (_ && _) = true |- _ => apply andb_true_iff in H as [? ?]
           | H : (_ || _) = true |- _ => apply orb_true_iff in H as [?|?]
           | H : byte_is _ _ = true |- _ => apply byte_is_true in H
           | H : byte_in _ _ _ = true |- _ => apply byte_in_true in H
           end;
    repeat split; apply high_spaceByte; lia.
Qed.

(** What [trimLeftSpace] drops is made of white-space bytes. *)
Lemma trimLeftSpace_spec (s : bytes) :
  exists d, s = d ++ trimLeftSpace s /\ Forall (fun c => spaceByte c = true) d.
Proof.
  remember (length s) as n eqn:Hn.
  revert s Hn. induction n as [n IH] using lt_wf_ind. intros s Hn.
  destruct s as [|c1 t1]; [exists []; split; [reflexivity | constructor]|].
  simpl. destruct (asciiSpace c1) eqn:E1.
  { destruct (IH (length t1)) with (s := t1) as [d [Hd Fd]];
      [subst n; simpl; lia | reflexivity |].
    exists (c1 :: d). split; [simpl; now rewrite <- Hd|].
    constructor; [now apply asciiSpace_spaceByte | exact Fd]. }
  destruct t1 as [|c2 t2]; [exists []; split; [reflexivity | constructor]|].
  destruct (space2 c1 c2) eqn:E2.
  { destruct (IH (length t2)) with (s := t2) as [d [Hd Fd]];
      [subst n; simpl; lia | reflexivity |].
    apply space2_spaceByte in E2 as [? ?].
    exists (c1 :: c2 :: d). split; [simpl; now rewrite <- Hd|].
    repeat constructor; assumption. }
  destruct t2 as [|c3 t3]; [exists []; split; [reflexivity | constructor]|].
  destruct (space3 c1 c2 c3) eqn:E3.
  { destruct (IH (length t3)) with (s := t3) as [d [Hd Fd]];
      [subst n; simpl; lia | reflexivity |].
    apply space3_spaceByte in E3 as [? [? ?]].
    exists (c1 :: c2 :: c3 :: d). split; [simpl; now rewrite <- Hd|].
    repeat constructor; assumption. }
  exists []; split; [reflexivity | constructor].
Qed.

Lemma trimLeftSpace_rev_spec (r : bytes) :
  exists d, r = d ++ trimLeftSpace_rev r /\ Forall (fun c => spaceByte c = true) d.
Proof.
  remember (length r) as n eqn:Hn.
  revert r Hn. induction n as [n IH] using lt_wf_ind. intros r Hn.
  destruct r as [|c1 t1]; [exists []; split; [reflexivity | constructor]|].
  simpl. destruct (asciiSpace c1) eqn:E1.
  { destruct (IH (length t1)) with (r := t1) as [d [Hd Fd]];
      [subst n; simpl; lia | reflexivity |].
    exists (c1 :: d). split; [simpl; now rewrite <- Hd|].
    constructor; [now apply asciiSpace_spaceByte | exact Fd]. }
  destruct t1 as [|c2 t2]; [exists []; split; [reflexivity | constructor]|].
  destruct (space2 c2 c1) eqn:E2.
  { destruct (IH (length t2)) with (r := t2) as [d [Hd Fd]];
      [subst n; simpl; lia | reflexivity |].
    apply space2_spaceByte in E2 as [? ?].
    exists (c1 :: c2 :: d). split; [simpl; now rewrite <- Hd|].
    repeat constructor; assumption. }
  destruct t2 as [|c3 t3]; [exists []; split; [reflexivity | constructor]|].
  destruct (space3 c3 c2 c1) eqn:E3.
  { destruct (IH (length t3)) with (r := t3) as [d [Hd Fd]];
      [subst n; simpl; lia | reflexivity |].
    apply space3_spaceByte in E3 as [? [? ?]].
    exists (c1 :: c2 :: c3 :: d). split; [simpl; now rewrite <- Hd|].
    repeat constructor; assumption. }
  exists []; split; [reflexivity | constructor].
Qed.


(** White space is only trimmed up to a byte that no encoding of white
    space holds. *)
Lemma trimLeftSpace_head (c : ascii) (t : bytes) :
  spaceByte c = false -> trimLeftSpace (c :: t) = c :: t.
Proof.
  intros Hc. destruct (trimLeftSpace_spec (c :: t)) as [d [Hd Fd]].
  destruct d as [|x d]; [exact (eq_sym Hd)|].
  simpl in Hd. injection Hd as <- _.
  inversion Fd as [|? ? Hx _]; subst. congruence.
Qed.

Lemma trimLeftSpace_rev_head (c : ascii) (t : bytes) :
  spaceByte c = false -> trimLeftSpace_rev (c :: t) = c :: t.
Proof.
  intros Hc. destruct (trimLeftSpace_rev_spec (c :: t)) as [d [Hd Fd]].
  destruct d as [|x d]; [exact (eq_sym Hd)|].
  simpl in Hd. injection Hd as <- _.
  inversion Fd as [|? ? Hx _]; subst. congruence.
Qed.

Lemma trimLeftSpace_valid_head (c : ascii) (t : bytes) :
  validChar c = true -> trimLeftSpace (c :: t) = c :: t.
Proof. intros Hc. now apply trimLeftSpace_head, validChar_not_spaceByte. Qed.

Lemma trimLeftSpace_rev_valid_head (c : ascii) (t : bytes) :
  validChar c = true -> trimLeftSpace_rev (c :: t) = c :: t.
Proof. intros Hc. now apply trimLeftSpace_rev_head, validChar_not_spaceByte. Qed.


Lemma strings_TrimSpace_valid (s : bytes) :
  Forall (fun c => validChar c = true) s -> strings_TrimSpace s = s.
Proof.
  intros F. unfold strings_TrimSpace, trimRightSpace.
  assert (E : trimLeftSpace s = s).
  { destruct s as [|c t]; [reflexivity|].
    inversion F; subst. now apply trimLeftSpace_valid_head. }
  rewrite E.
  assert (Fr : Forall (fun c => validChar c = true) (rev s)).
  { now apply List.Forall_rev. }
  destruct (rev s) as [|c t] eqn:Er.
  - simpl. rewrite <- (rev_involutive s), Er. reflexivity.
  - inversion Fr; subst. rewrite trimLeftSpace_rev_valid_head by assumption.
    rewrite <- Er. apply rev_involutive.
Qed.

(** ** [strings.ReplaceAll] and [invalidRE] on text of the class *)

Lemma branding_no_match (c : ascii) (t : bytes) :
  Ascii.eqb "|" c = false -> bytes_prefix (bytes_of branding) (c :: t) = false.
Proof.
  intros Hc. change (bytes_of branding) with ("|"%char :: bytes_of " LinkedIn Learning").
  cbn [bytes_prefix]. now rewrite Hc.
Qed.

Lemma ReplaceAll_branding_prefix (new p t : bytes) :
  Forall (fun c => Ascii.eqb "|" c = false) p ->
  strings_ReplaceAll (p ++ t) (bytes_of branding) new
  = p ++ strings_ReplaceAll t (bytes_of branding) new.
Proof.
  unfold strings_ReplaceAll.
  induction 1 as [|c p Hc _ IH]; [reflexivity|].
  change ((c :: p) ++ t) with (c :: (p ++ t)).
  cbn [ReplaceAll_from]. rewrite (branding_no_match c (p ++ t) Hc).
  now rewrite IH.
Qed.

Lemma ReplaceAll_branding_no_bar (new s : bytes) :
  Forall (fun c => Ascii.eqb "|" c = false) s ->
  strings_ReplaceAll s (bytes_of branding) new = s.
Proof.
  intros F. rewrite <- (app_nil_r s) at 1.
  rewrite ReplaceAll_branding_prefix by assumption.
  unfold strings_ReplaceAll. simpl. apply app_nil_r.
Qed.

Lemma valid_no_bar (s : bytes) :
  Forall (fun c => validChar c = true) s ->
  Forall (fun c => Ascii.eqb "|" c = false) s.
Proof. intros F. eapply Forall_impl; [exact F | exact validChar_not_bar]. Qed.

Lemma ReplaceAll_branding_valid (new s : bytes) :
  Forall (fun c => validChar c = true) s ->
  strings_ReplaceAll s (bytes_of branding) new = s.
Proof. intros F. now apply ReplaceAll_branding_no_bar, valid_no_bar. Qed.


Lemma invalidRE_replace_id (repl s : bytes) (b : bool) :
  Forall (fun c => validChar c = true) s -> invalidRE_replace repl b s = s.
Proof.
  intros F. revert b. induction F as [|c s Hc F IH]; intros b; [reflexivity|].
  simpl. rewrite Hc. now rewrite IH.
Qed.

Lemma invalidRE_replace_in_class (repl s : bytes) (b : bool) :
  Forall (fun c => validChar c = true) repl ->
  Forall (fun c => validChar c = true) (invalidRE_replace repl b s).
Proof.
  intros Fr. revert b. induction s as [|c s IH]; intros b; [constructor|].
  simpl. destruct (validChar c) eqn:Hc.
  - constructor; [exact Hc | apply IH].
  - destruct b; [apply IH|]. apply Forall_app. split; [exact Fr | apply IH].
Qed.

(** ** [sanitizeFileName] *)

Lemma sanitize_bytes_in_class (s : bytes) :
  Forall (fun c => validChar c = true) (sanitize_bytes s).
Proof.
  unfold sanitize_bytes, invalidRE_ReplaceAllString.
  apply invalidRE_replace_in_class. repeat constructor.
Qed.

Lemma sanitize_bytes_fixes_class (s : bytes) :
  Forall (fun c => validChar c = true) s -> sanitize_bytes s = s.
Proof.
  intros F. unfold sanitize_bytes, invalidRE_ReplaceAllString.
  rewrite ReplaceAll_branding_valid by assumption.
  rewrite strings_TrimSpace_valid by assumption.
  now apply invalidRE_replace_id.
Qed.


Example sanitize_ex1 :
  sanitizeFileName "  Hello, World! | LinkedIn Learning " = "Hello_World_".
Proof. reflexivity. Qed.

Example sanitize_ex2 :
  sanitizeFileName (fmt_stem "1. Getting Started" 3 "What's new?")
  = "1._Getting_Started.03.What_s_new_".
Proof. reflexivity. Qed.

(** C2.  [sanitizeFileName] is idempotent, every character of its result
    lies in [[A-Za-z0-9._-]], it is a total function (defined on every
    string), and it maps the empty string to the empty string. *)
Theorem sanitizeFileName_idempotent_in_class :
  (forall x : string,
      sanitizeFileName (sanitizeFileName x) = sanitizeFileName x
      /\ Forall (fun c => validChar c = true) (bytes_of (sanitizeFileName x)))
  /\ sanitizeFileName EmptyString = EmptyString.
Proof.
  split; [|reflexivity].
  intros x. unfold sanitizeFileName. rewrite !bytes_of_string_of.
  split.
  - f_equal. apply sanitize_bytes_fixes_class, sanitize_bytes_in_class.
  - apply sanitize_bytes_in_class.
Qed.

(** ** [fmt.Sprintf("%02d", z)] *)







Lemma uint_digits_safe (d : Decimal.uint) :
  Forall (fun c => stemSafe c = true) (bytes_of (NilEmpty.string_of_uint d)).
Proof.
  induction d; simpl; constructor; try assumption; reflexivity.
Qed.

Lemma fmt_02d_safe (z : Z) :
  Forall (fun c => stemSafe c = true) (bytes_of (fmt_02d z)).
Proof.
  unfold fmt_02d, decimal.
  destruct (z <? 0); [|destruct (z <? 10)]; simpl;
    repeat (constructor; [reflexivity|]); apply uint_digits_safe.
Qed.

Example fmt_02d_ex :
  (fmt_02d 0, fmt_02d 7, fmt_02d 10, fmt_02d 123, fmt_02d (-5))
  = ("00", "07", "10", "123", "-5").
Proof. reflexivity. Qed.

Lemma stemSafe_valid (c : ascii) : stemSafe c = true -> validChar c = true.
Proof. unfold stemSafe. rewrite andb_true_iff. tauto. Qed.

Lemma stemSafe_Forall_valid (s : bytes) :
  Forall (fun c => stemSafe c = true) s -> Forall (fun c => validChar c = true) s.
Proof. intros F. eapply Forall_impl; [exact F | exact stemSafe_valid]. Qed.


(** ** The stem of an entry *)

Lemma bytes_of_fmt_stem (section : string) (index : Z) (title : string) :
  bytes_of (fmt_stem section index title)
  = (bytes_of section ++ "."%char :: bytes_of (fmt_02d index))
      ++ "."%char :: bytes_of title.
Proof.
  unfold fmt_stem. rewrite !bytes_of_app. simpl.
  now rewrite <- app_assoc.
Qed.







(** ** The loop of [parseCourseVideos] *)

Lemma finish_entry_middle (net : NetURL) (done rest : list VideoEntry)
    (v : VideoEntry) :
  finish_entry net (length done) (done ++ v :: rest)
  = match url_Parse net (Href v) with
    | inl err => inl (ErrBadURL err)
    | inr u => inr (done ++ finished net v u :: rest)
    end.
Proof.
  unfold finish_entry. rewrite list_lookup_middle by reflexivity.
  destruct (url_Parse net (Href v)) as [err|u]; [reflexivity|].
  rewrite insert_app_r_alt by lia. rewrite alter_app_r_alt by lia.
  rewrite Nat.sub_diag. reflexivity.
Qed.

Lemma finish_entries_from_list (net : NetURL) (todo done : list VideoEntry) :
  finish_entries_from net (length todo) (length done) (done ++ todo)
  = match finish_list net todo with
    | inl err => inl err
    | inr todo' => inr (done ++ todo')
    end.
Proof.
  revert done. induction todo as [|v rest IH]; intros done.
  - reflexivity.
  - cbn [length finish_entries_from finish_list].
    rewrite finish_entry_middle.
    destruct (url_Parse net (Href v)) as [err|u]; [reflexivity|].
    replace (done ++ finished net v u :: rest)
      with ((done ++ [finished net v u]) ++ rest) by now rewrite <- app_assoc.
    replace (S (length done)) with (length (done ++ [finished net v u]))
      by (rewrite length_app; simpl; lia).
    rewrite IH. destruct (finish_list net rest); [reflexivity|].
    now rewrite <- app_assoc.
Qed.

Lemma finish_entries_list (net : NetURL) (videos : list VideoEntry) :
  finish_entries net videos = finish_list net videos.
Proof.
  unfold finish_entries.
  pose proof (finish_entries_from_list net videos []) as H.
  simpl in H. rewrite H.
  now destruct (finish_list net videos).
Qed.

Lemma finish_list_ok (net : NetURL) (videos videos' : list VideoEntry) :
  finish_list net videos = inr videos' ->
  Forall2 (fun v v' => exists u, url_Parse net (Href v) = inr u
                                 /\ v' = finished net v u) videos videos'.
Proof.
  revert videos'. induction videos as [|v rest IH]; intros videos' H; simpl in H.
  - injection H as <-. constructor.
  - destruct (url_Parse net (Href v)) as [err|u] eqn:Hu; [discriminate|].
    destruct (finish_list net rest) as [err|rest']; [discriminate|].
    injection H as <-. constructor; [|now apply IH].
    exists u. split; [exact Hu | reflexivity].
Qed.



(** ** The name of the output files *)




Lemma invalidRE_replace_at_valid (repl a t : bytes) (c : ascii) (b : bool) :
  validChar c = true ->
  invalidRE_replace repl b (a ++ c :: t)
  = invalidRE_replace repl b a ++ c :: invalidRE_replace repl false t.
Proof.
  intros Hc. revert b. induction a as [|x a IH]; intros b.
  - simpl. now rewrite Hc.
  - simpl. destruct (validChar x); [now rewrite IH|].
    destruct b; rewrite IH; [reflexivity | now rewrite app_assoc].
Qed.

Lemma strings_TrimSpace_ends (s : bytes) :
  (forall c t, s = c :: t -> spaceByte c = false) ->
  (forall c t, rev s = c :: t -> spaceByte c = false) ->
  strings_TrimSpace s = s.
Proof.
  intros Hh Hl. unfold strings_TrimSpace, trimRightSpace.
  assert (E : trimLeftSpace s = s).
  { destruct s as [|c t]; [reflexivity|]. apply trimLeftSpace_head. eauto. }
  rewrite E. destruct (rev s) as [|c t] eqn:Er.
  - simpl. rewrite <- (rev_involutive s), Er. reflexivity.
  - rewrite trimLeftSpace_rev_head by eauto.
    rewrite <- Er. apply rev_involutive.
Qed.

Lemma sanitize_bytes_tidy (s : bytes) :
  tidy s -> sanitize_bytes s = invalidRE_replace (bytes_of "_") false s.
Proof.
  intros [Hb [Hh Hl]]. unfold sanitize_bytes, invalidRE_ReplaceAllString.
  rewrite ReplaceAll_branding_no_bar by assumption.
  now rewrite strings_TrimSpace_ends.
Qed.

Lemma tidy_stem (a d b : bytes) :
  tidy a -> tidy b -> Forall (fun c => validChar c = true) d ->
  tidy (a ++ "."%char :: d ++ "."%char :: b).
Proof.
  intros [Ha [Hah Hal]] [Hb [Hbh Hbl]] Hd. repeat split.
  - apply Forall_app. split; [exact Ha|]. constructor; [reflexivity|].
    apply Forall_app. split; [now apply valid_no_bar|].
    constructor; [reflexivity | exact Hb].
  - intros c t E. destruct a as [|x a]; simpl in E; injection E as <- _.
    + reflexivity.
    + eauto.
  - intros c t E. rewrite rev_app_distr in E. simpl in E.
    rewrite rev_app_distr in E. simpl in E. rewrite <- !app_assoc in E.
    destruct (rev b) as [|x r] eqn:Eb; simpl in E; injection E as <- _.
    + reflexivity.
    + eauto.
Qed.

(** On tidy text the specification's wording and the program agree. *)
Lemma stem_componentwise_tidy (v : VideoEntry) :
  tidy (bytes_of (Section_ v)) -> tidy (bytes_of (Title v)) ->
  outputStem v = componentwise_stem v.
Proof.
  intros HS HT. apply bytes_of_inj.
  unfold outputStem, componentwise_stem, sanitizeFileName.
  rewrite bytes_of_string_of, bytes_of_fmt_stem, !bytes_of_app,
    !bytes_of_string_of.
  assert (Fd : Forall (fun c => validChar c = true) (bytes_of (fmt_02d (Index v))))
    by apply stemSafe_Forall_valid, fmt_02d_safe.
  rewrite <- app_assoc. cbn [app].
  rewrite (sanitize_bytes_tidy _ (tidy_stem _ _ _ HS HT Fd)).
  rewrite (sanitize_bytes_tidy _ HS), (sanitize_bytes_tidy _ HT).
  rewrite invalidRE_replace_at_valid by reflexivity.
  rewrite invalidRE_replace_at_valid by reflexivity.
  rewrite (invalidRE_replace_id _ _ false Fd). simpl.
  reflexivity.
Qed.

(** ** Traces *)

Lemma grows_refl (P : Event -> bool) (w : World) : grows P w w.
Proof. exists []. split; [now rewrite app_nil_r | reflexivity]. Qed.

Lemma grows_trans (P : Event -> bool) (w1 w2 w3 : World) :
  grows P w1 w2 -> grows P w2 w3 -> grows P w1 w3.
Proof.
  intros [e1 [H1 F1]] [e2 [H2 F2]]. exists (e1 ++ e2). split.
  - now rewrite H2, H1, app_assoc.
  - rewrite forallb_app, F1, F2. reflexivity.
Qed.

Lemma grows_emit (P : Event -> bool) (e : Event) (w w' : World) :
  P e = true -> grows P (emit e w) w' -> grows P w w'.
Proof.
  intros He H. apply grows_trans with (emit e w); [|exact H].
  exists [e]. split; [reflexivity | simpl; now rewrite He].
Qed.

Lemma grows_tick (P : Event -> bool) (w w' : World) :
  grows P (tick w) w' -> grows P w w'.
Proof. intros H. exact H. Qed.

Lemma grows_weaken (P Q : Event -> bool) (w w' : World) :
  (forall e, P e = true -> Q e = true) -> grows P w w' -> grows Q w w'.
Proof.
  intros HPQ [evs [H F]]. exists evs. split; [exact H|].
  rewrite forallb_forall in *. intros e He. apply HPQ, F, He.
Qed.

Lemma visitVideo_grows (fuel : nat) (env : Env) (href : string)
    (backoff count : Z) (w w' : World) (r : option Error) :
  visitVideo fuel env href backoff count w = Some (r, w') ->
  grows (visit_event href) w w'.
Proof.
  revert count w. induction fuel as [|fuel IH]; intros count w H; [discriminate|].
  cbn [visitVideo] in H.
  apply grows_emit with (EvNavigate href); [simpl; apply String.eqb_refl|].
  apply grows_tick.
  destruct (visit_run env (now w)) as [err|[rateLimited hasTranscript]].
  - destruct (count >=? maxRetry).
    + injection H as <- <-. apply grows_refl.
    + apply IH in H.
      apply grows_emit with (EvLog (LogNavRetry err)); [reflexivity|].
      apply grows_emit with (EvSleep backoff); [reflexivity|]. exact H.
  - destruct rateLimited.
    + apply IH in H.
      apply grows_emit with (EvLog LogRateLimited); [reflexivity|].
      apply grows_emit with (EvSleep backoff); [reflexivity|]. exact H.
    + destruct (negb hasTranscript); injection H as <- <-; apply grows_refl.
Qed.

Ltac trace_grows :=
  eexists; split;
  [ cbn [snd trace emit tick log sleep create_file append_file];
    rewrite <- ?app_assoc; reflexivity
  | reflexivity ].

Lemma downloadTranscript_grows (env : Env) (video : VideoEntry)
    (saveJSON : bool) (w : World) :
  grows fetch_event w (snd (downloadTranscript env video saveJSON w)).
Proof.
  unfold downloadTranscript, write_file.
  destruct (transcript_run env (now w)); [trace_grows|].
  destruct (os_Create env _ _); [trace_grows|].
  destruct saveJSON; cbn [now tick emit create_file];
    destruct (file_write env _) as [[? ?]|]; trace_grows.
Qed.

Lemma downloadVideo_grows (env : Env) (video : VideoEntry) (w : World) :
  grows fetch_event w (snd (downloadVideo env video w)).
Proof.
  unfold downloadVideo, write_file.
  destruct (video_run env (now w)); [trace_grows|].
  destruct (negb (string_nonempty _)); [trace_grows|].
  destruct (os_Create env _ _); [trace_grows|].
  destruct (http_NewRequest env _); [trace_grows|].
  cbn [now tick emit create_file].
  destruct (http_Do env _ _); [trace_grows|].
  destruct (negb _); [trace_grows|].
  cbn [now tick emit create_file].
  destruct (file_write env _) as [[? ?]|]; trace_grows.
Qed.

(** ** [visitVideo] *)

(** C4.  When the page loads with the rate-limit marker unset and the
    transcript control absent, [visitVideo] returns the no-transcript
    error from that very attempt, whatever the retry count: the trace
    grows by the one navigation and by no sleep. *)
Theorem no_transcript_is_not_retried (fuel : nat) (env : Env) (href : string)
    (backoff count : Z) (w : World) :
  visit_run env (now w) = inr (false, false) ->
  exists w',
    visitVideo (S fuel) env href backoff count w
    = Some (Some (ErrNoTranscript href), w')
    /\ trace w' = trace w ++ [EvNavigate href]
    /\ navigations (trace w') = navigations (trace w) ++ [href]
    /\ sleeps (trace w') = sleeps (trace w).
Proof.
  intros H. eexists. cbn [visitVideo]. rewrite H. cbn [negb].
  split; [reflexivity|]. cbn [trace tick emit].
  split; [reflexivity|].
  unfold navigations, sleeps. rewrite !omap_app. simpl.
  split; [reflexivity | apply app_nil_r].
Qed.

Lemma no_transcript_is_not_retried_witness :
  exists w',
    visitVideo 1 env_no_transcript "https://example.com/learning/c/x"
               60000000000 2 world0
    = Some (Some (ErrNoTranscript "https://example.com/learning/c/x"), w')
    /\ trace w' = trace world0 ++ [EvNavigate "https://example.com/learning/c/x"]
    /\ navigations (trace w')
       = navigations (trace world0) ++ ["https://example.com/learning/c/x"]
    /\ sleeps (trace w') = sleeps (trace world0).
Proof.
  apply (no_transcript_is_not_retried 0 env_no_transcript). reflexivity.
Defined.

(** The sibling path: navigation errors are counted against [maxRetry];
    after 6 retries the 7th failure is final. *)
Lemma visitVideo_offline_stops :
  let r := visitVideo 7 env_offline "https://example.com/learning/c/x" 60 0
             world0 in
  fst <$> r = Some (Some (ErrNavigationStopped
                            (ErrExternal "net::ERR_INTERNET_DISCONNECTED")))
  /\ (fun x => length (navigations (trace (snd x)))) <$> r = Some 7%nat
  /\ (fun x => length (sleeps (trace (snd x)))) <$> r = Some 6%nat.
Proof. vm_compute. repeat split. Qed.

(** A rate-limited page is retried whatever the count is: [count] is
    passed on and never read on that path. *)
Lemma visitVideo_rate_limited_step (fuel : nat) (env : Env) (href : string)
    (backoff count : Z) (w : World) (hasTranscript : bool) :
  visit_run env (now w) = inr (true, hasTranscript) ->
  visitVideo (S fuel) env href backoff count w
  = visitVideo fuel env href backoff (int_add count 1)
      (sleep backoff (log LogRateLimited (tick (emit (EvNavigate href) w)))).
Proof. intros H. cbn [visitVideo]. now rewrite H. Qed.

(** With a page that stays rate limited the recursion has no end: no
    amount of fuel lets [visitVideo] return. *)
Lemma visitVideo_always_rate_limited (fuel : nat) (href : string)
    (backoff count : Z) (w : World) :
  visitVideo fuel env_always_rate_limited href backoff count w = None.
Proof.
  revert count w. induction fuel as [|fuel IH]; intros count w; [reflexivity|].
  rewrite (visitVideo_rate_limited_step _ _ _ _ _ _ true) by reflexivity.
  apply IH.
Qed.


(** C1, evaluated on the program.  The page is rate limited 7 times in a
    row and then ready: [visitVideo], started with count 0, navigates 8
    times, sleeps 7 times (one retry more than [maxRetry]) and returns
    no error. *)
Theorem visitVideo_rate_limit_retries_past_bound :
  let r := visitVideo 8 (env_rate_limited 7) "https://example.com/learning/c/x"
             60000000000 0 world0 in
  fst <$> r = Some None
  /\ (fun x => length (navigations (trace (snd x)))) <$> r = Some 8%nat
  /\ (fun x => sleeps (trace (snd x))) <$> r
     = Some (replicate 7 60000000000)
  /\ Z.of_nat 7 > maxRetry.
Proof. vm_compute; repeat split. Qed.

(** The page is rate limited twice and then ready: 3 navigations, 2
    sleeps, no error. *)
Example rate_limited_twice :
  let r := visitVideo 3 (env_rate_limited 2) "https://example.com/learning/c/x"
             60000000000 0 world0 in
  fst <$> r = Some None
  /\ (fun x => length (navigations (trace (snd x)))) <$> r = Some 3%nat
  /\ (fun x => sleeps (trace (snd x))) <$> r
     = Some [60000000000; 60000000000].
Proof. vm_compute. repeat split. Qed.

(** The counter is shared: a navigation error that follows 6 rate-limited
    pages is final at once. *)
Example visitVideo_shared_counter :
  fst <$> visitVideo 7
    (with_visit_run (fun t => if (t <? 6)%nat then inr (true, true)
                              else inl (ErrExternal "timeout")) example_env)
    "https://example.com/learning/c/x" 60 0 world0
  = Some (Some (ErrNavigationStopped (ErrExternal "timeout"))).
Proof. vm_compute. reflexivity. Qed.

(** ** The loop over the lessons *)

Lemma visit_fetch_lesson (href : string) (e : Event) :
  visit_event href e = true \/ fetch_event e = true ->
  lesson_event href e = true.
Proof.
  unfold lesson_event. intros [->| ->]; [reflexivity|].
  now rewrite orb_true_r.
Qed.

Lemma lesson_loop_event (href : string) (hrefs : list string) (e : Event) :
  existsb (String.eqb href) hrefs = true ->
  lesson_event href e = true -> loop_event hrefs e = true.
Proof.
  intros Hin. destruct e as [l| | | | | | |u| | | | | | | |];
    try (destruct l); try (intros H; exact H); try discriminate.
  unfold lesson_event. simpl. rewrite !orb_false_r.
  intros Hu. apply String.eqb_eq in Hu. now subst.
Qed.

Lemma loop_event_more (h : string) (hrefs : list string) (e : Event) :
  loop_event hrefs e = true -> loop_event (h :: hrefs) e = true.
Proof.
  destruct e; try (intros H; exact H).
  simpl. intros ->. apply orb_true_r.
Qed.

Lemma lessons_begun_app (a b : list Event) :
  lessons_begun (a ++ b) = lessons_begun a ++ lessons_begun b.
Proof. apply omap_app. Qed.


Lemma lesson_events_begin_nothing (href : string) (evs : list Event) :
  forallb (lesson_event href) evs = true -> lessons_begun evs = [].
Proof.
  induction evs as [|e evs IH]; [reflexivity|].
  intros H. cbn [forallb] in H. apply andb_true_iff in H as [He F].
  change (e :: evs) with ([e] ++ evs).
  rewrite lessons_begun_app, (IH F), app_nil_r.
  destruct e as [l| | | | | | | | | | | | | | |]; try reflexivity.
  destruct l; try reflexivity; discriminate.
Qed.


Lemma lesson_grows (fuel : nat) (env : Env) (fl : Flags) (n i : nat)
    (video : VideoEntry) (w w' : World) :
  lesson fuel env fl n i video w = Some w' ->
  exists evs,
    trace w' = trace w
               ++ EvLog (LogProgress (i + 1) n (Section_ video) (Title video))
               :: evs
    /\ forallb (lesson_event (Href video)) evs = true.
Proof.
  unfold lesson. intros H.
  assert (G : grows (lesson_event (Href video))
                (log (LogProgress (i + 1) n (Section_ video) (Title video)) w) w').
  { destruct (visitVideo _ _ _ _ _ _) as [[[err|] w1]|] eqn:Hv; [| |discriminate].
    - apply visitVideo_grows in Hv. injection H as <-.
      apply grows_trans with w1.
      + eapply grows_weaken; [|exact Hv]. intros; apply visit_fetch_lesson; tauto.
      + exists [EvLog (LogVisitFailed err)]. split; reflexivity.
    - apply visitVideo_grows in Hv.
      apply grows_trans with w1;
        [eapply grows_weaken; [|exact Hv]; intros; apply visit_fetch_lesson; tauto|].
      clear Hv.
      assert (Gt : forall w2, grows fetch_event w1 w2 ->
                              grows (lesson_event (Href video)) w1 w2).
      { intros w2. apply grows_weaken. intros; apply visit_fetch_lesson; tauto. }
      assert (Gv : forall wa, grows (lesson_event (Href video)) w1 wa ->
                 (if dlVideos fl
                  then match downloadVideo env video wa with
                       | (Some err, w) => Some (log (LogSkipping err) w)
                       | (None, w) => Some w
                       end
                  else Some wa) = Some w' ->
                 grows (lesson_event (Href video)) w1 w').
      { intros wa Ga Hd. destruct (dlVideos fl).
        - pose proof (downloadVideo_grows env video wa) as Gd.
          destruct (downloadVideo env video wa) as [[err|] w3]; simpl in Gd;
            injection Hd as <-.
          + apply grows_trans with w3.
            * apply grows_trans with wa; [exact Ga|].
              eapply grows_weaken; [|exact Gd].
              intros; apply visit_fetch_lesson; tauto.
            * exists [EvLog (LogSkipping err)]. split; reflexivity.
          + apply grows_trans with wa; [exact Ga|].
            eapply grows_weaken; [|exact Gd].
            intros; apply visit_fetch_lesson; tauto.
        - injection Hd as <-. exact Ga. }
      destruct (dlTranscripts fl).
      + pose proof (downloadTranscript_grows env video (saveJSON fl) w1) as Gd.
        destruct (downloadTranscript env video (saveJSON fl) w1) as [[err|] w2];
          simpl in Gd.
        * injection H as <-. apply grows_trans with w2; [now apply Gt|].
          exists [EvLog (LogSkipping err)]. split; reflexivity.
        * apply (Gv w2); [now apply Gt | exact H].
      + apply (Gv w1); [apply grows_refl | exact H]. }
  destruct G as [evs [Ht F]]. exists evs. split; [|exact F].
  rewrite Ht. cbn [trace log emit]. now rewrite <- app_assoc.
Qed.

Lemma lesson_returns (fuel : nat) (env : Env) (fl : Flags) (n i : nat)
    (video : VideoEntry) (w : World) :
  (forall href w', visitVideo fuel env href (backoff fl) 0 w' <> None) ->
  exists w', lesson fuel env fl n i video w = Some w'.
Proof.
  intros Hret. unfold lesson.
  destruct (visitVideo _ _ _ _ _ _) as [[[err|] w1]|] eqn:Hv;
    [now eexists | | now apply Hret in Hv].
  destruct (dlTranscripts fl);
    [destruct (downloadTranscript _ _ _ _) as [[?|] w2]|];
    try (now eexists);
    destruct (dlVideos fl);
    try (now eexists);
    destruct (downloadVideo _ _ _) as [[?|] w3]; now eexists.
Qed.

(** Whatever the lessons return, the loop begins each of them, in the
    order of the list. *)
Lemma lessons_grows (fuel : nat) (env : Env) (fl : Flags) (n : nat)
    (videos : list VideoEntry) (i : nat) (w w' : World) :
  lessons fuel env fl n i videos w = Some w' ->
  exists evs,
    trace w' = trace w ++ evs
    /\ lessons_begun evs = progress_lines n i videos
    /\ forallb (loop_event (map Href videos)) evs = true.
Proof.
  revert i w. induction videos as [|v rest IH]; intros i w H.
  - injection H as <-. exists []. repeat split. simpl. now rewrite app_nil_r.
  - cbn [lessons] in H.
    destruct (lesson fuel env fl n i v w) as [w1|] eqn:H1; [|discriminate].
    apply lesson_grows in H1 as [e1 [T1 F1]].
    destruct (IH (S i) w1 H) as [e2 [T2 [B2 F2]]].
    exists (EvLog (LogProgress (i + 1) n (Section_ v) (Title v)) :: e1 ++ e2).
    split; [|split].
    + rewrite T2, T1, <- app_assoc. reflexivity.
    + change (EvLog (LogProgress (i + 1) n (Section_ v) (Title v)) :: e1 ++ e2)
        with ([EvLog (LogProgress (i + 1) n (Section_ v) (Title v))] ++ e1 ++ e2).
      rewrite !lessons_begun_app, B2, (lesson_events_begin_nothing _ _ F1).
      reflexivity.
    + cbn [forallb loop_event andb map]. rewrite forallb_app.
      apply andb_true_iff. split.
      * rewrite forallb_forall in *. intros e He.
        apply (lesson_loop_event (Href v)); [|now apply F1].
        simpl. now rewrite String.eqb_refl.
      * rewrite forallb_forall in *. intros e He.
        apply loop_event_more. now apply F2.
Qed.

(** The loop returns as soon as each call of [visitVideo] does. *)
Lemma lessons_returns (fuel : nat) (env : Env) (fl : Flags) (n : nat)
    (videos : list VideoEntry) (i : nat) (w : World) :
  (forall href w', visitVideo fuel env href (backoff fl) 0 w' <> None) ->
  exists w', lessons fuel env fl n i videos w = Some w'.
Proof.
  intros Hret. revert i w. induction videos as [|v rest IH]; intros i w.
  - now exists w.
  - cbn [lessons].
    destruct (lesson_returns fuel env fl n i v w Hret) as [w1 ->].
    apply IH.
Qed.

(** ** [main] *)

Ltac trace_eq :=
  unfold setup_events, extraction_events, teardown_events;
  repeat (progress
            (cbn [trace tick emit log sleep cancel_all newChromeDPCtx
                  create_file append_file];
             rewrite <- ?app_assoc));
  reflexivity.

Lemma parseCourseVideos_trace (env : Env) (u : string) (w : World) :
  trace (snd (parseCourseVideos env u w))
  = trace w ++ [EvLog LogParsing; EvNavigate u].
Proof.
  unfold parseCourseVideos.
  destruct (course_run env _); [|destruct (videoParseJS _ _)];
    cbn [snd trace tick emit log]; now rewrite <- app_assoc.
Qed.

(** A failed login ends the process with status 1 and without the
    deferred [cancel]. *)
Lemma main_login_fails (fuel : nat) (env : Env) (fl : Flags) (w : World)
    (err : Error) :
  dlVideos fl || dlTranscripts fl = true ->
  sso_run env (now w) = Some err ->
  setup env fl w = inl err
  /\ exists w',
       main fuel env fl w = Some (1, w')
       /\ trace w' = trace w ++ setup_events fl ++ [EvLog (LogFatal err)].
Proof.
  intros Hfl Hsso. unfold setup, main, main_session, ssoLogin.
  replace (negb (dlVideos fl) && negb (dlTranscripts fl)) with false
    by (destruct (dlVideos fl), (dlTranscripts fl); simpl in *; congruence).
  cbn [now log emit newChromeDPCtx]. rewrite Hsso.
  split; [reflexivity|]. eexists. split; [reflexivity|]. trace_eq.
Qed.

(** A failed extraction does the same. *)
Lemma main_extraction_fails (fuel : nat) (env : Env) (fl : Flags) (w : World)
    (err : Error) :
  dlVideos fl || dlTranscripts fl = true ->
  sso_run env (now w) = None ->
  setup env fl w = inl err ->
  exists w',
    main fuel env fl w = Some (1, w')
    /\ trace w' = trace w ++ setup_events fl ++ extraction_events fl
                  ++ [EvLog (LogFatalExtract err)].
Proof.
  intros Hfl Hsso. unfold setup, main, main_session, ssoLogin.
  replace (negb (dlVideos fl) && negb (dlTranscripts fl)) with false
    by (destruct (dlVideos fl), (dlTranscripts fl); simpl in *; congruence).
  cbn [now log emit newChromeDPCtx]. rewrite Hsso.
  match goal with
  | |- context [parseCourseVideos env ?u ?w0] =>
      pose proof (parseCourseVideos_trace env u w0) as Ht;
      destruct (parseCourseVideos env u w0) as [[e|videos] w2]
  end; [|discriminate].
  cbn [fst snd] in *. intros [= ->]. eexists. split; [reflexivity|].
  cbn [trace log emit]. rewrite Ht. trace_eq.
Qed.

(** After a good login and a good extraction, a run that ends has
    status 0, has begun every lesson, and has run the deferred
    [cancel] last. *)
Lemma main_lessons (fuel : nat) (env : Env) (fl : Flags) (w : World)
    (videos : list VideoEntry) (status : Z) (w' : World) :
  dlVideos fl || dlTranscripts fl = true ->
  sso_run env (now w) = None ->
  setup env fl w = inr videos ->
  main fuel env fl w = Some (status, w') ->
  status = 0
  /\ exists evs,
       trace w' = trace w ++ setup_events fl ++ extraction_events fl
                  ++ [EvLog (LogFound (length videos) (countSections videos))]
                  ++ evs ++ [EvLog LogAllSaved] ++ teardown_events
       /\ lessons_begun evs = progress_lines (length videos) 0 videos
       /\ forallb (loop_event (map Href videos)) evs = true.
Proof.
  intros Hfl Hsso. unfold setup, main, main_session, ssoLogin.
  replace (negb (dlVideos fl) && negb (dlTranscripts fl)) with false
    by (destruct (dlVideos fl), (dlTranscripts fl); simpl in *; congruence).
  cbn [now log emit newChromeDPCtx]. rewrite Hsso.
  match goal with
  | |- context [parseCourseVideos env ?u ?w0] =>
      pose proof (parseCourseVideos_trace env u w0) as Ht;
      destruct (parseCourseVideos env u w0) as [[e|vs] w2]
  end; [discriminate|].
  cbn [fst snd] in *. intros [= ->].
  destruct (lessons _ _ _ _ _ _ _) as [w3|] eqn:Hl; [|discriminate].
  intros [= <- <-]. split; [reflexivity|].
  apply lessons_grows in Hl as [evs [T [B F]]].
  exists evs. split; [|split; assumption].
  cbn [trace cancel_all log emit]. rewrite T. cbn [trace log emit].
  rewrite Ht. trace_eq.
Qed.

Lemma main_returns (fuel : nat) (env : Env) (fl : Flags) (w : World) :
  (forall href w', visitVideo fuel env href (backoff fl) 0 w' <> None) ->
  exists status w', main fuel env fl w = Some (status, w').
Proof.
  intros Hret. unfold main, main_session.
  destruct (negb _ && negb _); [now eexists; eexists|].
  destruct (ssoLogin _ _ _) as [[err|] w1]; [now eexists; eexists|].
  destruct (parseCourseVideos _ _ _) as [[err|videos] w2];
    [now eexists; eexists|].
  match goal with
  | |- context [lessons ?f ?e ?l ?n ?i ?vs ?w0] =>
      destruct (lessons_returns f e l n vs i w0 Hret) as [w3 ->]
  end.
  now eexists; eexists.
Qed.

Lemma setup_login (env : Env) (fl : Flags) (w : World) :
  setup env fl w
  = match sso_run env (now w) with
    | Some err => inl err
    | None =>
        fst (parseCourseVideos env (courseURL fl)
               (log LogLoggedIn
                  (tick (emit (EvNavigate (ssoURL fl))
                           (log LogLoggingIn (newChromeDPCtx (timeout fl) w))))))
    end.
Proof. unfold setup, ssoLogin. cbn [now log emit newChromeDPCtx]. now destruct (sso_run env (now w)). Qed.



(** ** The session *)

(** On the two fatal paths the session has been created and none of the
    three cancel functions is called before the process ends. *)
Lemma fatal_exit_runs_no_cancel (fuel : nat) (env : Env) (fl : Flags)
    (w : World) (err : Error) :
  dlVideos fl || dlTranscripts fl = true ->
  setup env fl w = inl err ->
  exists w' evs,
    main fuel env fl w = Some (1, w')
    /\ trace w' = trace w ++ EvNewExecAllocator :: EvNewContext :: evs
    /\ forallb (fun e => negb (is_cancel e)) evs = true.
Proof.
  intros Hfl Hs. destruct (sso_run env (now w)) as [e|] eqn:Hsso.
  - destruct (main_login_fails fuel env fl w e Hfl Hsso) as [_ [w' [Hm Ht]]].
    exists w'. eexists. split; [exact Hm|]. split; [exact Ht|]. reflexivity.
  - destruct (main_extraction_fails fuel env fl w err Hfl Hsso Hs)
      as [w' [Hm Ht]].
    exists w'. eexists. split; [exact Hm|]. split; [exact Ht|]. reflexivity.
Qed.

(** When [main] returns, the deferred [cancel] runs last: the three
    cancel functions, the timeout first. *)
Lemma return_runs_cancel (fuel : nat) (env : Env) (fl : Flags) (w : World)
    (videos : list VideoEntry) (status : Z) (w' : World) :
  dlVideos fl || dlTranscripts fl = true ->
  setup env fl w = inr videos ->
  main fuel env fl w = Some (status, w') ->
  exists evs, trace w' = trace w ++ evs ++ teardown_events.
Proof.
  intros Hfl Hs Hm. destruct (sso_run env (now w)) as [e|] eqn:Hsso.
  - rewrite setup_login, Hsso in Hs. discriminate.
  - destruct (main_lessons fuel env fl w videos status w' Hfl Hsso Hs Hm)
      as [_ [evs [Ht _]]].
    exists (setup_events fl ++ extraction_events fl
            ++ [EvLog (LogFound (length videos) (countSections videos))]
            ++ evs ++ [EvLog LogAllSaved]).
    rewrite Ht, <- !app_assoc. reflexivity.
Qed.

(** C9, evaluated on the program.  When the login fails, the process
    ends with status 1 after the fatal log line; the session had been
    created, and no cancel function has been called. *)
Theorem fatal_login_skips_teardown :
  let r := main 1 env_login_fails example_flags world0 in
  fst <$> r = Some 1
  /\ (fun x => trace (snd x)) <$> r
     = Some [ EvNewExecAllocator; EvNewContext; EvWithTimeout 3600000000000;
              EvLog LogLoggingIn; EvNavigate "https://example.com/sso";
              EvLog (LogFatal (ErrExternal "context deadline exceeded")) ]
  /\ (fun x => List.filter is_cancel (trace (snd x))) <$> r = Some [].
Proof. vm_compute. repeat split. Qed.

(** ** The links *)





(** ** [videoParseJS] *)

Lemma links_cons (video : TocItem) (rest : list TocItem) :
  links (video :: rest)
  = match item_link video with
    | Some href => href :: links rest
    | None => links rest
    end.
Proof. reflexivity. Qed.

Lemma index_run_shift (index : Z) (n : nat) :
  map (fun k => index + 1 + Z.of_nat k) (seq 1 n)
  = map (fun k => index + Z.of_nat k) (seq 2 n).
Proof.
  rewrite <- (seq_shift n 1), map_map. apply map_ext. intros k. lia.
Qed.

Lemma parse_items_titled (js : JSRuntime) (sectionName : option string)
    (videos : list TocItem) (index : Z) :
  Forall (titled js) videos ->
  exists results,
    parse_items js sectionName index videos = Some results
    /\ map raw_href results = links videos
    /\ map raw_index results
       = map (fun k => index + Z.of_nat k) (seq 1 (length (links videos)))
    /\ Forall (fun r => raw_section r = sectionName) results.
Proof.
  intros F. revert index. induction F as [|video rest Ht F IH]; intros index.
  - exists []. repeat split. constructor.
  - cbn [parse_items]. unfold titled in Ht.
    destruct (item_title_text js video) as [title|]; [clear Ht | congruence].
    rewrite links_cons. destruct (item_link video) as [href|].
    + destruct (IH (index + 1)) as [results [-> [Hh [Hi Hs]]]].
      eexists. split; [reflexivity|]. cbn [map raw_href raw_index length seq].
      rewrite Hh, Hi, index_run_shift. repeat split.
      constructor; [reflexivity | exact Hs].
    + apply IH.
Qed.

Lemma parse_items_untitled (js : JSRuntime) (sectionName : option string)
    (videos : list TocItem) (index : Z) :
  Exists (fun video => item_title_text js video = None) videos ->
  parse_items js sectionName index videos = None.
Proof.
  intros E. revert index. induction E as [video rest H|video rest E IH];
    intros index; cbn [parse_items].
  - now rewrite H.
  - destruct (item_title_text js video); [|reflexivity].
    destruct (item_link video); [|apply IH]. now rewrite IH.
Qed.

(** C8, as stated, fails: on this page two items have a link and the
    extraction keeps none of them, the script having thrown. *)
Lemma untitled_item_breaks_extraction :
  length (page_links untitled_page) = 2%nat
  /\ videoParseJS example_js untitled_page = None
  /\ fst (parseCourseVideos env_untitled "https://example.com/learning/c" world0)
     = inl (ErrExternal "exception").
Proof. vm_compute. repeat split. Qed.

(** C8, amended.  On a page each item of which has a title with a text
    node that is not blank, the script returns exactly the items that
    have a link, in the order of the page, and in each section their
    indices are 1, 2, ..., k. *)
Theorem extraction_keeps_linked_items (js : JSRuntime) (page : list TocSection) :
  all_titled js page ->
  exists results,
    videoParseJS js page = Some results
    /\ map raw_href results = page_links page
    /\ length results = length (page_links page)
    /\ map raw_index results = page_indices page.
Proof.
  intros F.
  assert (H : exists results,
             videoParseJS js page = Some results
             /\ map raw_href results = page_links page
             /\ map raw_index results = page_indices page).
  { induction F as [|s rest Hs F [after [Ha [Hh Hi]]]].
    - exists []. repeat split.
    - cbn [videoParseJS].
      destruct (parse_items_titled js (option_map (js_trim js) (toc_title s))
                  (toc_items s) 0 Hs) as [here [-> [Hh' [Hi' _]]]].
      rewrite Ha. exists (here ++ after). split; [reflexivity|].
      unfold page_links, page_indices in *. cbn [map concat].
      rewrite !map_app, Hh, Hi, Hh', Hi'. split; reflexivity. }
  destruct H as [results [Hr [Hh Hi]]]. exists results.
  repeat split; try assumption.
  rewrite <- Hh. now rewrite length_map.
Qed.

Example gapped_page_indices :
  option_map (map (fun r => (raw_section r, raw_index r, raw_title r)))
             (videoParseJS example_js gapped_page)
  = Some [ (Some "Introduction", 1, "Welcome");
           (Some "Introduction", 2, "Setup");
           (Some "Conclusion", 1, "Next steps") ].
Proof. vm_compute. reflexivity. Qed.

Lemma extraction_keeps_linked_items_witness :
  exists results,
    videoParseJS example_js gapped_page = Some results
    /\ map raw_href results = page_links gapped_page
    /\ length results = length (page_links gapped_page)
    /\ map raw_index results = page_indices gapped_page.
Proof.
  apply (extraction_keeps_linked_items example_js gapped_page).
  unfold all_titled, gapped_page.
  repeat (apply Forall_cons; split); try apply Forall_nil; try exact I;
    unfold titled; vm_compute; discriminate.
Defined.

(** ** [downloadVideo] *)

(** C10.  Once the video source is known and [os.Create] has succeeded,
    a request that cannot be built, a request that fails and a response
    whose status is not 200 each make [downloadVideo] return an error
    with the file [filename + ".mp4"] existing and empty, whatever was
    there before; the file was created before the request was built and
    sent. *)
Theorem failed_download_leaves_empty_file (env : Env) (video : VideoEntry)
    (w : World) (videoURL : string) :
  video_run env (now w) = inr videoURL ->
  string_nonempty videoURL = true ->
  os_Create env (S (now w)) (filename video +:+ ".mp4") = None ->
  (is_Some (http_NewRequest env videoURL)
   \/ (exists err, http_Do env (S (S (now w))) videoURL = inl err)
   \/ (exists resp, http_Do env (S (S (now w))) videoURL = inr resp
                    /\ StatusCode resp <> http_StatusOK)) ->
  exists err w' evs,
    downloadVideo env video w = (Some err, w')
    /\ files w' !! (filename video +:+ ".mp4") = Some []
    /\ trace w' = trace w ++ [ EvFindVideo;
                               EvCreate (filename video +:+ ".mp4");
                               EvNewRequest videoURL ] ++ evs.
Proof.
  intros Hsrc Hne Hcreate Hfail. unfold downloadVideo.
  rewrite Hsrc, Hne. cbn [negb now tick emit]. rewrite Hcreate.
  cbn [now tick emit create_file].
  destruct (http_NewRequest env videoURL) as [e|] eqn:Hreq.
  - eexists. eexists. exists [EvClose (filename video +:+ ".mp4")].
    split; [reflexivity|]. split; [apply lookup_insert_eq | trace_eq].
  - destruct Hfail as [[e He]|[[e He]|[resp [He Hst]]]]; [discriminate| |].
    + rewrite He. eexists. eexists.
      exists [EvHTTPDo videoURL; EvClose (filename video +:+ ".mp4")].
      split; [reflexivity|]. split; [apply lookup_insert_eq | trace_eq].
    + rewrite He.
      replace (StatusCode resp =? http_StatusOK) with false
        by (symmetry; now apply Z.eqb_neq).
      cbn [negb]. eexists. eexists.
      exists [EvHTTPDo videoURL; EvCloseBody;
              EvClose (filename video +:+ ".mp4")].
      split; [reflexivity|]. split; [apply lookup_insert_eq | trace_eq].
Qed.

Lemma failed_download_leaves_empty_file_witness :
  exists err w' evs,
    downloadVideo env_forbidden stored_video world_with_old_file = (Some err, w')
    /\ files w' !! (filename stored_video +:+ ".mp4") = Some []
    /\ trace w' = trace world_with_old_file
                  ++ [ EvFindVideo;
                       EvCreate (filename stored_video +:+ ".mp4");
                       EvNewRequest "https://cdn.example.com/v.mp4" ] ++ evs.
Proof.
  apply (failed_download_leaves_empty_file env_forbidden stored_video
           world_with_old_file "https://cdn.example.com/v.mp4");
    try reflexivity.
  right. right. eexists. split; [reflexivity | discriminate].
Defined.

(* ===================================================================== *)
(** * Part IV: further properties of the program                          *)
(* ===================================================================== *)

(** ** [visitVideo]: attempts, outcome, termination *)

Lemma int_add_small (a b : Z) :
  - 2 ^ 63 <= a + b < 2 ^ 63 -> int_add a b = a + b.
Proof.
  intros H. unfold int_add, int_wrap.
  rewrite Z.mod_small by lia. lia.
Qed.

Lemma attempts_app (a b : list Event) :
  List.filter is_attempt_event (a ++ b)
  = List.filter is_attempt_event a ++ List.filter is_attempt_event b.
Proof. apply List.filter_app. Qed.

(** Every call of [visitVideo] that returns has made its attempts at the
    one link, with exactly one sleep of [backoff] between two consecutive
    attempts and none before the first or after the last; each attempt
    took one tick, and no file was touched. *)
Theorem visitVideo_attempts (fuel : nat) (env : Env) (href : string)
    (backoff count : Z) (w w' : World) (r : option Error) :
  visitVideo fuel env href backoff count w = Some (r, w') ->
  exists n evs,
    trace w' = trace w ++ evs
    /\ List.filter is_attempt_event evs = retry_pattern n href backoff
    /\ now w' = (now w + S n)%nat
    /\ files w' = files w.
Proof.
  revert count w. induction fuel as [|fuel IH]; intros count w H; [discriminate|].
  cbn [visitVideo] in H.
  assert (Hrec : forall l c,
             visitVideo fuel env href backoff c
               (sleep backoff (log l (tick (emit (EvNavigate href) w))))
             = Some (r, w') ->
             exists n evs,
               trace w' = trace w ++ evs
               /\ List.filter is_attempt_event evs = retry_pattern n href backoff
               /\ now w' = (now w + S n)%nat
               /\ files w' = files w).
  { intros l c Hc. apply IH in Hc as [n [evs [Ht [Hp [Hn Hf]]]]].
    exists (S n), ([EvNavigate href; EvLog l; EvSleep backoff] ++ evs).
    split; [|split; [|split]].
    - rewrite Ht. cbn [trace sleep log emit tick].
      now rewrite <- !app_assoc.
    - rewrite attempts_app, Hp. reflexivity.
    - rewrite Hn. cbn [now sleep log emit tick]. lia.
    - exact Hf. }
  assert (Hstop : forall e,
             Some (e, tick (emit (EvNavigate href) w)) = Some (r, w') ->
             exists n evs,
               trace w' = trace w ++ evs
               /\ List.filter is_attempt_event evs = retry_pattern n href backoff
               /\ now w' = (now w + S n)%nat
               /\ files w' = files w).
  { intros e [= <- <-]. exists 0%nat, [EvNavigate href].
    repeat split. cbn [now tick emit]. lia. }
  destruct (visit_run env (now w)) as [err|[rateLimited hasTranscript]].
  - destruct (count >=? maxRetry); [now apply Hstop in H | now apply Hrec in H].
  - destruct rateLimited; [now apply Hrec in H|].
    destruct (negb hasTranscript); now apply Hstop in H.
Qed.

Lemma visitVideo_attempts_witness :
  exists n evs,
    trace world_after_retry = trace world0 ++ evs
    /\ List.filter is_attempt_event evs
       = retry_pattern n "https://example.com/learning/c/x" 60
    /\ now world_after_retry = (now world0 + S n)%nat
    /\ files world_after_retry = files world0.
Proof.
  apply (visitVideo_attempts 2 (env_rate_limited 1)
           "https://example.com/learning/c/x" 60 0 world0 world_after_retry
           None).
  reflexivity.
Defined.

(** What [visitVideo] returns is what its last attempt met: no error
    after a page that is not rate limited and has the transcript control,
    the no-transcript error (with the link) after a page that is not
    rate limited and lacks the control, the navigation-stopped error
    (with the cause) after a failed navigation; it returns no other
    error. *)
Theorem visitVideo_outcome (fuel : nat) (env : Env) (href : string)
    (backoff count : Z) (w w' : World) (r : option Error) :
  visitVideo fuel env href backoff count w = Some (r, w') ->
  match r with
  | None => visit_run env (Nat.pred (now w')) = inr (false, true)
  | Some (ErrNoTranscript h) =>
      h = href /\ visit_run env (Nat.pred (now w')) = inr (false, false)
  | Some (ErrNavigationStopped cause) =>
      visit_run env (Nat.pred (now w')) = inl cause
  | Some _ => False
  end.
Proof.
  revert count w. induction fuel as [|fuel IH]; intros count w H; [discriminate|].
  cbn [visitVideo] in H.
  destruct (visit_run env (now w)) as [err|[rateLimited hasTranscript]] eqn:Hrun.
  - destruct (count >=? maxRetry); [|now apply IH in H].
    injection H as <- <-. exact Hrun.
  - destruct rateLimited; [now apply IH in H|].
    destruct hasTranscript; injection H as <- <-; cbn [negb]; auto.
Qed.

Lemma visitVideo_outcome_witness :
  visit_run (env_rate_limited 1) (Nat.pred (now world_after_retry))
  = inr (false, true).
Proof.
  apply (visitVideo_outcome 2 (env_rate_limited 1)
           "https://example.com/learning/c/x" 60 0 world0 world_after_retry
           None).
  reflexivity.
Defined.

(** Navigation errors are counted: started with a count between 0 and 6
    and meeting nothing but failed navigations, [visitVideo] sleeps
    [6 - count] times and then returns the navigation-stopped error with
    the cause of the last failure. *)
Theorem visitVideo_gives_up (k : nat) (env : Env) (href : string)
    (backoff : Z) (w : World) :
  (k <= 6)%nat ->
  (forall j, (j <= k)%nat -> exists e, visit_run env (now w + j)%nat = inl e) ->
  exists cause w' evs,
    visit_run env (now w + k)%nat = inl cause
    /\ visitVideo (S k) env href backoff (6 - Z.of_nat k) w
       = Some (Some (ErrNavigationStopped cause), w')
    /\ trace w' = trace w ++ evs
    /\ sleeps evs = replicate k backoff.
Proof.
  revert w. induction k as [|k IH]; intros w Hk Herr.
  - destruct (Herr 0%nat) as [e He]; [lia|].
    rewrite Nat.add_0_r in *. exists e. eexists. exists [EvNavigate href].
    cbn [visitVideo]. rewrite He. simpl. repeat split.
  - destruct (Herr 0%nat) as [e0 He0]; [lia|]. rewrite Nat.add_0_r in He0.
    destruct (IH (sleep backoff (log (LogNavRetry e0)
                                    (tick (emit (EvNavigate href) w)))))
      as [cause [w' [evs [Hc [Hv [Ht Hs]]]]]]; [lia| |].
    { intros j Hj. cbn [now sleep log emit tick].
      replace (S (now w) + j)%nat with (now w + S j)%nat by lia.
      apply Herr. lia. }
    cbn [now sleep log emit tick] in Hc.
    replace (S (now w) + k)%nat with (now w + S k)%nat in Hc by lia.
    exists cause, w', ([EvNavigate href; EvLog (LogNavRetry e0); EvSleep backoff] ++ evs).
    split; [exact Hc|]. split; [|split].
    + cbn [visitVideo]. rewrite He0.
      replace (6 - Z.of_nat (S k) >=? maxRetry) with false
        by (symmetry; unfold maxRetry; rewrite Z.geb_leb; apply Z.leb_gt; lia).
      rewrite int_add_small by lia.
      replace (6 - Z.of_nat (S k) + 1) with (6 - Z.of_nat k) by lia.
      exact Hv.
    + rewrite Ht. cbn [trace sleep log emit tick]. now rewrite <- !app_assoc.
    + unfold sleeps in *. rewrite omap_app, Hs. reflexivity.
Qed.

Lemma visitVideo_gives_up_witness :
  exists cause w' evs,
    visit_run env_offline (now world0 + 6)%nat = inl cause
    /\ visitVideo 7 env_offline "https://example.com/learning/c/x" 60
         (6 - Z.of_nat 6) world0
       = Some (Some (ErrNavigationStopped cause), w')
    /\ trace w' = trace world0 ++ evs
    /\ sleeps evs = replicate 6 60.
Proof.
  apply (visitVideo_gives_up 6 env_offline "https://example.com/learning/c/x"
           60 world0).
  - lia.
  - intros j _. eexists. reflexivity.
Defined.

(** While the page stays rate limited [visitVideo] does not return,
    whatever the count: no amount of fuel is enough. *)
Theorem visitVideo_never_returns_while_rate_limited (fuel : nat) (env : Env)
    (href : string) (backoff count : Z) (w : World) :
  (forall t, (now w <= t)%nat -> exists hasTranscript,
        visit_run env t = inr (true, hasTranscript)) ->
  visitVideo fuel env href backoff count w = None.
Proof.
  revert count w. induction fuel as [|fuel IH]; intros count w H; [reflexivity|].
  destruct (H (now w)) as [ht Hh]; [lia|].
  rewrite (visitVideo_rate_limited_step _ _ _ _ _ _ ht Hh).
  apply IH. intros t Ht. apply H. cbn [now sleep log emit tick] in Ht. lia.
Qed.

Lemma visitVideo_never_returns_while_rate_limited_witness :
  visitVideo 1000 env_always_rate_limited "https://example.com/learning/c/x"
             60 0 world0 = None.
Proof.
  apply (visitVideo_never_returns_while_rate_limited 1000
           env_always_rate_limited).
  intros t _. exists true. reflexivity.
Defined.

Lemma visitVideo_fuel_enough (env : Env) (href : string) (backoff : Z) :
  (forall t hasTranscript, visit_run env t <> inr (true, hasTranscript)) ->
  forall fuel count w,
    (1 <= fuel)%nat -> 0 <= count < 2 ^ 62 -> 7 <= Z.of_nat fuel + count ->
    visitVideo fuel env href backoff count w <> None.
Proof.
  intros Hfree.
  induction fuel as [|fuel IH]; intros c w0 Hf Hc Hsum; [lia|].
  cbn [visitVideo].
  destruct (visit_run env (now w0)) as [err|[rateLimited hasTranscript]] eqn:Hrun.
  - rewrite Z.geb_leb. destruct (Z.leb_spec maxRetry c) as [Hge|Hlt];
      [discriminate|].
    unfold maxRetry in Hlt. rewrite int_add_small by lia.
    apply IH; lia.
  - destruct rateLimited; [now apply Hfree in Hrun|].
    destruct (negb hasTranscript); discriminate.
Qed.



(** ** [main]: what a run does and does not do *)

Lemma named_refl (stem ext : string) (exts : list string) :
  In ext exts -> named stem exts (stem +:+ ext) = true.
Proof.
  intros H. unfold named. apply existsb_exists. exists ext.
  split; [exact H | apply String.eqb_refl].
Qed.

Ltac events_grow :=
  eexists; split;
  [ cbn [snd trace emit tick log sleep create_file append_file];
    rewrite <- ?app_assoc; reflexivity
  | cbn [forallb app transcript_event video_event filename set_Transcript];
    rewrite ?named_refl by (simpl; tauto); reflexivity ].

Lemma downloadTranscript_events (env : Env) (video : VideoEntry)
    (saveJSON : bool) (w : World) :
  grows (transcript_event (filename video)) w
        (snd (downloadTranscript env video saveJSON w)).
Proof.
  unfold downloadTranscript, write_file.
  destruct (transcript_run env (now w)); [events_grow|].
  destruct saveJSON.
  - change (filename (set_Transcript (strings_Join l newline) video)
            +:+ "." +:+ "json")%string with (filename video +:+ ".json")%string.
    destruct (os_Create env _ _); [events_grow|].
    cbn [now tick emit create_file].
    destruct (file_write env _) as [[? ?]|]; events_grow.
  - change (filename (set_Transcript (strings_Join l newline) video)
            +:+ "." +:+ "txt")%string with (filename video +:+ ".txt")%string.
    destruct (os_Create env _ _); [events_grow|].
    cbn [now tick emit create_file].
    destruct (file_write env _) as [[? ?]|]; events_grow.
Qed.

Lemma downloadVideo_events (env : Env) (video : VideoEntry) (w : World) :
  grows (video_event (filename video)) w (snd (downloadVideo env video w)).
Proof.
  unfold downloadVideo, write_file.
  destruct (video_run env (now w)); [events_grow|].
  destruct (negb (string_nonempty _)); [events_grow|].
  destruct (os_Create env _ _); [events_grow|].
  destruct (http_NewRequest env _); [events_grow|].
  cbn [now tick emit create_file].
  destruct (http_Do env _ _); [events_grow|].
  destruct (negb _); [events_grow|].
  cbn [now tick emit create_file].
  destruct (file_write env _) as [[? ?]|]; events_grow.
Qed.

Lemma asked_visit (fl : Flags) (video : VideoEntry) (e : Event) :
  visit_event (Href video) e = true -> asked_event fl video e = true.
Proof. unfold asked_event. now intros ->. Qed.

Lemma asked_transcript (fl : Flags) (video : VideoEntry) (e : Event) :
  dlTranscripts fl = true ->
  transcript_event (filename video) e = true -> asked_event fl video e = true.
Proof.
  unfold asked_event. intros -> ->. cbn [andb].
  now rewrite orb_true_r.
Qed.

Lemma asked_video (fl : Flags) (video : VideoEntry) (e : Event) :
  dlVideos fl = true ->
  video_event (filename video) e = true -> asked_event fl video e = true.
Proof.
  unfold asked_event. intros -> ->. cbn [andb].
  now rewrite !orb_true_r.
Qed.

Lemma asked_failure_line (fl : Flags) (video : VideoEntry) (err : Error) :
  asked_event fl video (EvLog (LogVisitFailed err)) = true
  /\ asked_event fl video (EvLog (LogSkipping err)) = true.
Proof. unfold asked_event. simpl. now rewrite !andb_false_r. Qed.

Lemma grows_log (P : Event -> bool) (l : LogLine) (w w' : World) :
  P (EvLog l) = true -> grows P w w' -> grows P w (log l w').
Proof.
  intros Hl H. apply grows_trans with w'; [exact H|].
  exists [EvLog l]. split; [reflexivity | simpl; now rewrite Hl].
Qed.

(** The events of one lesson are those of the visit and of the fetchers
    that the flags ask for. *)
Lemma lesson_asked (fuel : nat) (env : Env) (fl : Flags) (n i : nat)
    (video : VideoEntry) (w w' : World) :
  lesson fuel env fl n i video w = Some w' ->
  exists evs,
    trace w' = trace w
               ++ EvLog (LogProgress (i + 1) n (Section_ video) (Title video))
               :: evs
    /\ forallb (asked_event fl video) evs = true.
Proof.
  unfold lesson. intros H.
  assert (G : grows (asked_event fl video)
                (log (LogProgress (i + 1) n (Section_ video) (Title video)) w) w').
  { destruct (visitVideo _ _ _ _ _ _) as [[[err|] w1]|] eqn:Hv; [| |discriminate];
      apply visitVideo_grows in Hv;
      apply (grows_weaken _ (asked_event fl video)) in Hv;
      try (intros; now apply asked_visit).
    - injection H as <-. apply grows_log; [apply asked_failure_line | exact Hv].
    - assert (Gv : forall wa, grows (asked_event fl video)
                     (log (LogProgress (i + 1) n (Section_ video) (Title video)) w) wa ->
                 (if dlVideos fl
                  then match downloadVideo env video wa with
                       | (Some err, w) => Some (log (LogSkipping err) w)
                       | (None, w) => Some w
                       end
                  else Some wa) = Some w' ->
                 grows (asked_event fl video)
                   (log (LogProgress (i + 1) n (Section_ video) (Title video)) w) w').
      { intros wa Ga Hd. destruct (dlVideos fl) eqn:Hdv.
        - pose proof (downloadVideo_events env video wa) as Gd.
          apply (grows_weaken _ (asked_event fl video)) in Gd;
            [|intros; now apply asked_video].
          destruct (downloadVideo env video wa) as [[err|] w3]; simpl in Gd;
            injection Hd as <-.
          + apply grows_log; [apply asked_failure_line|].
            now apply grows_trans with wa.
          + now apply grows_trans with wa.
        - injection Hd as <-. exact Ga. }
      destruct (dlTranscripts fl) eqn:Hdt.
      + pose proof (downloadTranscript_events env video (saveJSON fl) w1) as Gd.
        apply (grows_weaken _ (asked_event fl video)) in Gd;
          [|intros; now apply asked_transcript].
        destruct (downloadTranscript env video (saveJSON fl) w1) as [[err|] w2];
          simpl in Gd.
        * injection H as <-. apply grows_log; [apply asked_failure_line|].
          now apply grows_trans with w1.
        * apply (Gv w2); [now apply grows_trans with w1 | exact H].
      + apply (Gv w1); [exact Hv | exact H]. }
  destruct G as [evs [Ht F]]. exists evs. split; [|exact F].
  rewrite Ht. cbn [trace log emit]. now rewrite <- app_assoc.
Qed.

Lemma asked_run (fl : Flags) (v : VideoEntry) (rest : list VideoEntry)
    (e : Event) :
  asked_event fl v e = true -> run_event fl (v :: rest) e = true.
Proof.
  intros H. unfold run_event. cbn [existsb]. rewrite H.
  destruct e as [l| | | | | | | | | | | | | | |]; try reflexivity.
  destruct l; reflexivity.
Qed.

Lemma run_event_more (fl : Flags) (v : VideoEntry) (rest : list VideoEntry)
    (e : Event) :
  run_event fl rest e = true -> run_event fl (v :: rest) e = true.
Proof.
  unfold run_event. cbn [existsb]. intros H.
  destruct e as [l| | | | | | | | | | | | | | |];
    try (rewrite H; apply orb_true_r).
  destruct l; try (rewrite H; apply orb_true_r). reflexivity.
Qed.

Lemma lessons_asked (fuel : nat) (env : Env) (fl : Flags) (n : nat)
    (videos : list VideoEntry) (i : nat) (w w' : World) :
  lessons fuel env fl n i videos w = Some w' ->
  exists evs,
    trace w' = trace w ++ evs
    /\ forallb (run_event fl videos) evs = true.
Proof.
  revert i w. induction videos as [|v rest IH]; intros i w H.
  - injection H as <-. exists []. split; [now rewrite app_nil_r | reflexivity].
  - cbn [lessons] in H.
    destruct (lesson fuel env fl n i v w) as [w1|] eqn:H1; [|discriminate].
    apply lesson_asked in H1 as [e1 [T1 F1]].
    destruct (IH (S i) w1 H) as [e2 [T2 F2]].
    exists (EvLog (LogProgress (i + 1) n (Section_ v) (Title v)) :: e1 ++ e2).
    split.
    + rewrite T2, T1, <- app_assoc. reflexivity.
    + cbn [forallb run_event andb]. rewrite forallb_app.
      apply andb_true_iff. split; rewrite forallb_forall in *; intros e He.
      * apply asked_run. now apply F1.
      * apply run_event_more. now apply F2.
Qed.

(** A run that gets past the extraction is the loop between the setup
    and the teardown. *)
Lemma main_after_setup (fuel : nat) (env : Env) (fl : Flags) (w : World)
    (videos : list VideoEntry) (status : Z) (w' : World) :
  dlVideos fl || dlTranscripts fl = true ->
  setup env fl w = inr videos ->
  main fuel env fl w = Some (status, w') ->
  status = 0
  /\ exists w2 w3,
       trace w2 = trace w ++ setup_events fl ++ extraction_events fl
                  ++ [EvLog (LogFound (length videos) (countSections videos))]
       /\ lessons fuel env fl (length videos) 0 videos w2 = Some w3
       /\ w' = cancel_all (log LogAllSaved w3).
Proof.
  intros Hfl. unfold setup, main, main_session, ssoLogin.
  replace (negb (dlVideos fl) && negb (dlTranscripts fl)) with false
    by (destruct (dlVideos fl), (dlTranscripts fl); simpl in *; congruence).
  cbn [now log emit newChromeDPCtx].
  destruct (sso_run env (now w)); [discriminate|].
  match goal with
  | |- context [parseCourseVideos env ?u ?w0] =>
      pose proof (parseCourseVideos_trace env u w0) as Ht;
      destruct (parseCourseVideos env u w0) as [[e|vs] w2]
  end; [discriminate|].
  cbn [fst snd] in *. intros [= ->].
  destruct (lessons _ _ _ _ _ _ _) as [w3|] eqn:Hl; [|discriminate].
  intros [= <- <-]. split; [reflexivity|].
  eexists. exists w3. split; [|split; [exact Hl | reflexivity]].
  cbn [trace log emit]. rewrite Ht. trace_eq.
Qed.

Lemma main_events (fuel : nat) (env : Env) (fl : Flags) (w : World)
    (videos : list VideoEntry) (status : Z) (w' : World) :
  dlVideos fl || dlTranscripts fl = true ->
  setup env fl w = inr videos ->
  main fuel env fl w = Some (status, w') ->
  exists evs,
    trace w' = trace w ++ setup_events fl ++ extraction_events fl
               ++ [EvLog (LogFound (length videos) (countSections videos))]
               ++ evs ++ [EvLog LogAllSaved] ++ teardown_events
    /\ forallb (run_event fl videos) evs = true.
Proof.
  intros Hfl Hs Hm.
  destruct (main_after_setup fuel env fl w videos status w' Hfl Hs Hm)
    as [_ [w2 [w3 [T2 [Hl ->]]]]].
  apply lessons_asked in Hl as [evs [T3 F]].
  exists evs. split; [|exact F].
  cbn [trace cancel_all log emit]. rewrite T3, T2. trace_eq.
Qed.

Lemma setup_fails_or_not (env : Env) (fl : Flags) (w : World) (err : Error)
    (fuel : nat) (status : Z) (w' : World) :
  dlVideos fl || dlTranscripts fl = true ->
  setup env fl w = inl err ->
  main fuel env fl w = Some (status, w') ->
  exists l, trace w' = trace w ++ setup_events fl ++ l
            /\ (l = [EvLog (LogFatal err)]
                \/ l = extraction_events fl ++ [EvLog (LogFatalExtract err)]).
Proof.
  intros Hfl Hs Hm. destruct (sso_run env (now w)) as [e|] eqn:Hsso.
  - destruct (main_login_fails fuel env fl w e Hfl Hsso) as [Hs' [w1 [Hm' Ht]]].
    rewrite Hs' in Hs. injection Hs as ->. rewrite Hm' in Hm.
    injection Hm as _ <-. eexists. split; [exact Ht | now left].
  - destruct (main_extraction_fails fuel env fl w err Hfl Hsso Hs)
      as [w1 [Hm' Ht]].
    rewrite Hm' in Hm. injection Hm as _ <-.
    eexists. split; [exact Ht | now right].
Qed.

Lemma run_event_not_session (fl : Flags) (videos : list VideoEntry) (e : Event) :
  run_event fl videos e = true -> is_session_event e = false.
Proof.
  unfold run_event.
  destruct e as [l| | | | | | | | | | | | | | |]; try reflexivity;
    intros H; apply existsb_exists in H as [v [_ H]];
    unfold asked_event in H; simpl in H;
    rewrite ?andb_false_r in H; discriminate.
Qed.

(** The session is made once and unmade once: a run that gets past the
    extraction starts with the three contexts (allocator, browser,
    timeout) and ends with their three cancel functions in the reverse
    order; in between no context is made or cancelled. *)
Theorem main_session_bracket (fuel : nat) (env : Env) (fl : Flags) (w : World)
    (videos : list VideoEntry) (status : Z) (w' : World) :
  dlVideos fl || dlTranscripts fl = true ->
  setup env fl w = inr videos ->
  main fuel env fl w = Some (status, w') ->
  exists evs,
    trace w' = trace w
               ++ [EvNewExecAllocator; EvNewContext; EvWithTimeout (timeout fl)]
               ++ evs
               ++ [EvTimeoutCancel; EvChromeCancel; EvAllocCancel]
    /\ forallb (fun e => negb (is_session_event e)) evs = true.
Proof.
  intros Hfl Hs Hm.
  destruct (main_events fuel env fl w videos status w' Hfl Hs Hm)
    as [evs [Ht F]].
  exists ([EvLog LogLoggingIn; EvNavigate (ssoURL fl)] ++ extraction_events fl
          ++ [EvLog (LogFound (length videos) (countSections videos))]
          ++ evs ++ [EvLog LogAllSaved]).
  split.
  - rewrite Ht. unfold setup_events, teardown_events.
    rewrite <- !app_assoc. reflexivity.
  - rewrite !forallb_app. unfold extraction_events. cbn [forallb].
    simpl. rewrite andb_true_r.
    apply forallb_forall. intros e He. rewrite forallb_forall in F.
    now rewrite (run_event_not_session fl videos e (F e He)).
Qed.

Lemma main_session_bracket_witness :
  exists evs,
    trace (match main 1 example_env example_flags world0 with
           | Some (_, w') => w'
           | None => world0
           end)
    = trace world0
      ++ [EvNewExecAllocator; EvNewContext; EvWithTimeout (timeout example_flags)]
      ++ evs
      ++ [EvTimeoutCancel; EvChromeCancel; EvAllocCancel]
    /\ forallb (fun e => negb (is_session_event e)) evs = true.
Proof.
  apply (main_session_bracket 1 example_env example_flags world0
           (match setup example_env example_flags world0 with
            | inr videos => videos
            | inl _ => []
            end) 0).
  - reflexivity.
  - vm_compute. reflexivity.
  - vm_compute. reflexivity.
Defined.

Lemma run_event_no_video (fl : Flags) (videos : list VideoEntry) (e : Event) :
  dlVideos fl = false -> run_event fl videos e = true -> video_only e = false.
Proof.
  intros Hv. unfold run_event.
  destruct e as [l| | | | | | | | | | | | | | |]; try reflexivity;
    try (destruct l; try reflexivity);
    intros H; apply existsb_exists in H as [v [_ H]];
    unfold asked_event in H; rewrite Hv in H; simpl in H;
    rewrite ?andb_false_r in H; discriminate.
Qed.

Lemma run_event_no_transcript (fl : Flags) (videos : list VideoEntry) (e : Event) :
  dlTranscripts fl = false -> run_event fl videos e = true ->
  transcript_only e = false.
Proof.
  intros Hv. unfold run_event.
  destruct e as [l| | | | | | | | | | | | | | |]; try reflexivity;
    try (destruct l; try reflexivity);
    intros H; apply existsb_exists in H as [v [_ H]];
    unfold asked_event in H; rewrite Hv in H; simpl in H;
    rewrite ?andb_false_r in H; discriminate.
Qed.

(** The events of a whole run, whatever its end. *)
Lemma main_trace (fuel : nat) (env : Env) (fl : Flags) (w : World)
    (status : Z) (w' : World) :
  main fuel env fl w = Some (status, w') ->
  (exists quiet evs videos,
     trace w' = trace w ++ quiet ++ evs ++ [EvLog LogAllSaved] ++ teardown_events
     /\ forallb (run_event fl videos) evs = true
     /\ forallb (fun e => negb (video_only e) && negb (transcript_only e)
                          && match e with EvCreate _ => false | _ => true end)
                quiet = true
     /\ (setup env fl w = inr videos \/ evs = []))
  \/ (exists quiet,
        trace w' = trace w ++ quiet
        /\ forallb (fun e => negb (video_only e) && negb (transcript_only e)
                             && match e with EvCreate _ => false | _ => true end)
                   quiet = true).
Proof.
  intros Hm.
  destruct (negb (dlVideos fl) && negb (dlTranscripts fl)) eqn:Hfl.
  - right. unfold main in Hm. rewrite Hfl in Hm. injection Hm as _ <-.
    exists [EvLog LogFatalFlags]. split; reflexivity.
  - assert (Hfl' : dlVideos fl || dlTranscripts fl = true)
      by (destruct (dlVideos fl), (dlTranscripts fl); simpl in *; congruence).
    destruct (setup env fl w) as [err|videos] eqn:Hs.
    + right.
      destruct (setup_fails_or_not env fl w err fuel status w' Hfl' Hs Hm)
        as [l [Ht [-> | ->]]]; eexists; (split; [exact Ht | reflexivity]).
    + left.
      destruct (main_events fuel env fl w videos status w' Hfl' Hs Hm)
        as [evs [Ht F]].
      exists (setup_events fl ++ extraction_events fl
              ++ [EvLog (LogFound (length videos) (countSections videos))]),
        evs, videos.
      split; [rewrite Ht, <- !app_assoc; reflexivity|].
      split; [exact F|]. split; [reflexivity | now left].
Qed.

(** A run downloads only what the flags ask for: without [-videos] no
    video element is looked up, no request is built or sent and no body
    is read; without [-transcripts] no transcript is scraped. *)
Theorem main_downloads_only_what_was_asked (fuel : nat) (env : Env)
    (fl : Flags) (w : World) (status : Z) (w' : World) :
  main fuel env fl w = Some (status, w') ->
  exists evs,
    trace w' = trace w ++ evs
    /\ (dlVideos fl = false ->
        forallb (fun e => negb (video_only e)) evs = true)
    /\ (dlTranscripts fl = false ->
        forallb (fun e => negb (transcript_only e)) evs = true).
Proof.
  intros Hm.
  destruct (main_trace fuel env fl w status w' Hm)
    as [[quiet [evs [videos [Ht [F [Q _]]]]]]|[quiet [Ht Q]]].
  - exists (quiet ++ evs ++ [EvLog LogAllSaved] ++ teardown_events).
    split; [exact Ht|].
    split; intros Hoff; rewrite !forallb_app; cbn [forallb teardown_events];
      simpl; rewrite andb_true_r; apply andb_true_iff; split;
      apply forallb_forall; intros e He;
      rewrite forallb_forall in Q, F.
    + specialize (Q e He). now apply andb_true_iff in Q as [Q%andb_true_iff _].
    + now rewrite (run_event_no_video fl videos e Hoff (F e He)).
    + specialize (Q e He).
      apply andb_true_iff in Q as [Q _]. now apply andb_true_iff in Q.
    + now rewrite (run_event_no_transcript fl videos e Hoff (F e He)).
  - exists quiet. split; [exact Ht|].
    split; intros _; apply forallb_forall; intros e He;
      rewrite forallb_forall in Q; specialize (Q e He);
      apply andb_true_iff in Q as [Q _]; now apply andb_true_iff in Q.
Qed.

Lemma main_downloads_only_what_was_asked_witness :
  exists evs,
    trace (final_world (main 1 example_env transcripts_only_flags world0))
    = trace world0 ++ evs
    /\ (dlVideos transcripts_only_flags = false ->
        forallb (fun e => negb (video_only e)) evs = true)
    /\ (dlTranscripts transcripts_only_flags = false ->
        forallb (fun e => negb (transcript_only e)) evs = true).
Proof.
  apply (main_downloads_only_what_was_asked 1 example_env
           transcripts_only_flags world0 0).
  vm_compute. reflexivity.
Defined.

(** ** The names of the files *)

Lemma in_class_app (s t : string) :
  in_class s -> in_class t -> in_class (s +:+ t).
Proof.
  unfold in_class. rewrite bytes_of_app. intros Hs Ht.
  apply Forall_app. now split.
Qed.

Lemma outputStem_in_class (v : VideoEntry) : in_class (outputStem v).
Proof.
  unfold in_class, outputStem, sanitizeFileName.
  rewrite bytes_of_string_of. apply sanitize_bytes_in_class.
Qed.

Lemma finish_list_filenames (net : NetURL) (videos videos' : list VideoEntry) :
  finish_list net videos = inr videos' ->
  Forall (fun v => in_class (filename v)) videos'.
Proof.
  intros H. apply finish_list_ok in H.
  induction H as [|v v' vs vs' [u [_ ->]] _ IH]; constructor; [|exact IH].
  apply outputStem_in_class.
Qed.

Lemma setup_filenames (env : Env) (fl : Flags) (w : World)
    (videos : list VideoEntry) :
  setup env fl w = inr videos ->
  Forall (fun v => in_class (filename v)) videos.
Proof.
  rewrite setup_login. destruct (sso_run env (now w)); [discriminate|].
  unfold parseCourseVideos.
  destruct (course_run env _); [discriminate|].
  destruct (videoParseJS _ _); [|discriminate].
  cbn [fst]. rewrite finish_entries_list. apply finish_list_filenames.
Qed.

Lemma named_in_class (stem : string) (exts : list string) (n : string) :
  in_class stem -> Forall in_class exts -> named stem exts n = true ->
  in_class n.
Proof.
  intros Hs He H. unfold named in H.
  apply existsb_exists in H as [ext [Hin H]]. apply String.eqb_eq in H as ->.
  apply in_class_app; [exact Hs|].
  rewrite Forall_forall in He. now apply He, list_elem_of_In.
Qed.

(** Every file that a run creates has a name made of [[A-Za-z0-9._-]]:
    no separator, so the file lies in the working directory. *)
Theorem created_files_have_safe_names (fuel : nat) (env : Env) (fl : Flags)
    (w : World) (status : Z) (w' : World) :
  main fuel env fl w = Some (status, w') ->
  exists evs,
    trace w' = trace w ++ evs
    /\ forall name, In (EvCreate name) evs -> in_class name.
Proof.
  intros Hm.
  assert (Hq : forall quiet name,
             forallb (fun e => negb (video_only e) && negb (transcript_only e)
                               && match e with EvCreate _ => false | _ => true end)
                     quiet = true ->
             In (EvCreate name) quiet -> in_class name).
  { intros quiet name Q Hin. rewrite forallb_forall in Q.
    specialize (Q _ Hin). discriminate. }
  destruct (main_trace fuel env fl w status w' Hm)
    as [[quiet [evs [videos [Ht [F [Q Hs]]]]]]|[quiet [Ht Q]]].
  - exists (quiet ++ evs ++ [EvLog LogAllSaved] ++ teardown_events).
    split; [exact Ht|]. intros name Hin.
    apply in_app_or in Hin as [Hin|Hin]; [now apply (Hq quiet)|].
    apply in_app_or in Hin as [Hin|Hin];
      [|simpl in Hin; intuition discriminate].
    destruct Hs as [Hs| ->]; [|contradiction].
    rewrite forallb_forall in F. specialize (F _ Hin).
    cbn [run_event] in F. apply existsb_exists in F as [v [Hv F]].
    pose proof (setup_filenames env fl w videos Hs) as Hcl.
    rewrite Forall_forall in Hcl.
    assert (Hvc : in_class (filename v)) by now apply Hcl, list_elem_of_In.
    unfold asked_event in F. cbn [visit_event transcript_event video_event] in F.
    rewrite !orb_false_r in F. cbn [orb] in F.
    apply orb_true_iff in F as [F|F]; apply andb_true_iff in F as [_ F];
      (eapply named_in_class; [exact Hvc | | exact F]);
      repeat constructor.
  - exists quiet. split; [exact Ht|]. intros name. apply Hq, Q.
Qed.

Lemma created_files_have_safe_names_witness :
  exists evs,
    trace (final_world (main 1 example_env example_flags world0))
    = trace world0 ++ evs
    /\ forall name, In (EvCreate name) evs -> in_class name.
Proof.
  apply (created_files_have_safe_names 1 example_env example_flags world0 0).
  vm_compute. reflexivity.
Defined.

(** ** Termination of a run *)

(** When the platform never answers with a rate-limited page, the run
    ends: [main] returns an exit status, each lesson taking at most 7
    navigations. *)
Theorem main_terminates_without_rate_limit (env : Env) (fl : Flags) (w : World) :
  (forall t hasTranscript, visit_run env t <> inr (true, hasTranscript)) ->
  exists status w', main 7 env fl w = Some (status, w').
Proof.
  intros Hfree. apply main_returns. intros href w0.
  apply visitVideo_fuel_enough; [exact Hfree | lia..].
Qed.

Lemma main_terminates_without_rate_limit_witness :
  exists status w',
    main 7 env_unreachable_lesson example_flags world0 = Some (status, w').
Proof.
  apply (main_terminates_without_rate_limit env_unreachable_lesson).
  intros t ht. unfold env_unreachable_lesson, with_visit_run.
  cbn [visit_run]. destruct (andb _ _); discriminate.
Defined.

(** ** One lesson *)

Lemma visitVideo_files (fuel : nat) (env : Env) (href : string)
    (backoff count : Z) (w w' : World) (r : option Error) :
  visitVideo fuel env href backoff count w = Some (r, w') ->
  files w' = files w.
Proof.
  revert count w. induction fuel as [|fuel IH]; intros count w H; [discriminate|].
  cbn [visitVideo] in H.
  destruct (visit_run env (now w)) as [err|[rateLimited hasTranscript]].
  - destruct (count >=? maxRetry); [now injection H as <- <-|].
    now apply IH in H.
  - destruct rateLimited; [now apply IH in H|].
    destruct (negb hasTranscript); now injection H as <- <-.
Qed.

Lemma visit_event_not_fetch (href : string) (e : Event) :
  visit_event href e = true -> fetch_event e = false.
Proof.
  destruct e as [l| | | | | | | | | | | | | | |]; try discriminate;
    try reflexivity.
  destruct l; try discriminate; reflexivity.
Qed.

(** A lesson that [visitVideo] gives up on is left alone: nothing is
    scraped, requested, created or written for it, and the loop body
    ends with the failure logged. *)
Theorem failed_visit_downloads_nothing (fuel : nat) (env : Env) (fl : Flags)
    (n i : nat) (video : VideoEntry) (w w1 : World) (err : Error) :
  visitVideo fuel env (Href video) (backoff fl) 0
             (log (lesson_line n i video) w) = Some (Some err, w1) ->
  exists w' evs,
    lesson fuel env fl n i video w = Some w'
    /\ trace w' = trace w ++ evs ++ [EvLog (LogVisitFailed err)]
    /\ forallb (fun e => negb (fetch_event e)) evs = true
    /\ files w' = files w.
Proof.
  intros Hv. unfold lesson. unfold lesson_line in Hv. rewrite Hv.
  pose proof (visitVideo_files _ _ _ _ _ _ _ _ Hv) as Hf.
  apply visitVideo_grows in Hv as [evs [Ht F]].
  eexists. exists (EvLog (LogProgress (i + 1) n (Section_ video) (Title video))
                   :: evs).
  split; [reflexivity|]. split; [|split].
  - cbn [trace log emit]. rewrite Ht. cbn [trace log emit].
    now rewrite <- !app_assoc.
  - cbn [forallb fetch_event negb andb]. apply forallb_forall. intros e He.
    rewrite forallb_forall in F.
    now rewrite (visit_event_not_fetch _ _ (F e He)).
  - exact Hf.
Qed.

Lemma failed_visit_downloads_nothing_witness :
  exists w' evs,
    lesson 1 env_no_transcript example_flags 3 0 stored_video world0 = Some w'
    /\ trace w' = trace world0 ++ evs
                  ++ [EvLog (LogVisitFailed (ErrNoTranscript (Href stored_video)))]
    /\ forallb (fun e => negb (fetch_event e)) evs = true
    /\ files w' = files world0.
Proof.
  apply (failed_visit_downloads_nothing 1 env_no_transcript example_flags
           3 0 stored_video world0
           (tick (emit (EvNavigate (Href stored_video))
                    (log (lesson_line 3 0 stored_video) world0)))).
  reflexivity.
Defined.

Lemma transcript_event_not_video (stem : string) (e : Event) :
  transcript_event stem e = true -> video_only e = false.
Proof.
  destruct e as [l| | | | | | | | | | | | | | |]; try discriminate;
    try reflexivity.
  destruct l; try discriminate; reflexivity.
Qed.

Lemma visit_event_not_video (href : string) (e : Event) :
  visit_event href e = true -> video_only e = false.
Proof.
  destruct e as [l| | | | | | | | | | | | | | |]; try discriminate;
    try reflexivity.
  destruct l; try discriminate; reflexivity.
Qed.

(** When the transcript of a lesson fails, its video is not attempted,
    even with [-videos]: the loop body ends with the failure logged, and
    no event of a video download has occurred. *)
Theorem failed_transcript_skips_video (fuel : nat) (env : Env) (fl : Flags)
    (n i : nat) (video : VideoEntry) (w w1 w2 : World) (err : Error) :
  dlTranscripts fl = true ->
  visitVideo fuel env (Href video) (backoff fl) 0
             (log (lesson_line n i video) w) = Some (None, w1) ->
  downloadTranscript env video (saveJSON fl) w1 = (Some err, w2) ->
  exists w' evs,
    lesson fuel env fl n i video w = Some w'
    /\ trace w' = trace w ++ evs ++ [EvLog (LogSkipping err)]
    /\ forallb (fun e => negb (video_only e)) evs = true.
Proof.
  intros Hdt Hv Hd. unfold lesson. unfold lesson_line in Hv.
  rewrite Hv, Hdt, Hd.
  apply visitVideo_grows in Hv as [e1 [T1 F1]].
  pose proof (downloadTranscript_events env video (saveJSON fl) w1) as G.
  rewrite Hd in G. destruct G as [e2 [T2 F2]]. cbn [snd] in T2.
  eexists. exists (EvLog (LogProgress (i + 1) n (Section_ video) (Title video))
                   :: e1 ++ e2).
  split; [reflexivity|]. split.
  - cbn [trace log emit]. rewrite T2, T1. cbn [trace log emit].
    rewrite <- !app_assoc. cbn [app]. now rewrite <- !app_assoc.
  - cbn [forallb video_only negb andb]. rewrite forallb_app.
    apply andb_true_iff. split; apply forallb_forall; intros e He.
    + rewrite forallb_forall in F1.
      now rewrite (visit_event_not_video _ _ (F1 e He)).
    + rewrite forallb_forall in F2.
      now rewrite (transcript_event_not_video _ _ (F2 e He)).
Qed.

Lemma failed_transcript_skips_video_witness :
  exists w' evs,
    lesson 1 env_no_lines example_flags 3 0 stored_video world0 = Some w'
    /\ trace w' = trace world0 ++ evs
                  ++ [EvLog (LogSkipping
                               (ErrScrape (ErrExternal "context deadline exceeded")))]
    /\ forallb (fun e => negb (video_only e)) evs = true.
Proof.
  apply (failed_transcript_skips_video 1 env_no_lines example_flags 3 0
           stored_video world0
           (tick (emit (EvNavigate (Href stored_video))
                    (log (lesson_line 3 0 stored_video) world0)))
           (tick (emit EvScrapeTranscript
                    (tick (emit (EvNavigate (Href stored_video))
                             (log (lesson_line 3 0 stored_video) world0))))));
    reflexivity.
Defined.

(** ** The fetchers and the files *)

(** What [downloadVideo] returns tells the state of the file
    [filename + ".mp4"]: no error, and it holds the whole body of a
    response with status 200; an error of the lookup, of an empty source
    or of the creation, and no file was touched; an error of the request,
    of the transfer or of the status, and the file is there and empty;
    an error of the copy, and the file holds what was written before the
    copy broke off.  It returns no other error. *)
Theorem downloadVideo_outcome (env : Env) (video : VideoEntry) (w w' : World)
    (r : option Error) :
  downloadVideo env video w = (r, w') ->
  match r with
  | None =>
      exists videoURL resp,
        video_run env (now w) = inr videoURL
        /\ string_nonempty videoURL = true
        /\ http_Do env (S (S (now w))) videoURL = inr resp
        /\ StatusCode resp = 200
        /\ files w' = <[mp4_name video := [WText (Body resp)]]> (files w)
  | Some (ErrFindVideo _) | Some ErrEmptyVideoURL | Some (ErrCreateFile _ _) =>
      files w' = files w
  | Some (ErrCreateRequest _) | Some (ErrDownload _) | Some (ErrStatus _) =>
      files w' = <[mp4_name video := []]> (files w)
  | Some (ErrSaveVideo _) =>
      exists n body,
        files w' = <[mp4_name video := [WPartial n (WText body)]]> (files w)
  | Some _ => False
  end.
Proof.
  unfold downloadVideo, write_file, mp4_name.
  destruct (video_run env (now w)) as [e|videoURL]; [now intros [= <- <-]|].
  destruct (string_nonempty videoURL) eqn:Hne; cbn [negb];
    [|now intros [= <- <-]].
  cbn [now tick emit].
  destruct (os_Create env _ _); [now intros [= <- <-]|].
  destruct (http_NewRequest env videoURL); [now intros [= <- <-]|].
  cbn [now tick emit create_file].
  destruct (http_Do env _ _) as [e|resp] eqn:Hdo; [now intros [= <- <-]|].
  destruct (Z.eqb_spec (StatusCode resp) http_StatusOK) as [Hst|Hst]; cbn [negb];
    [|now intros [= <- <-]].
  cbn [now tick emit create_file].
  destruct (file_write env _) as [[n e]|]; intros [= <- <-];
    cbn [files emit log append_file tick create_file].
  - exists n, (Body resp). now rewrite alter_insert_eq.
  - exists videoURL, resp. repeat split; try assumption.
    now rewrite alter_insert_eq.
Qed.

Lemma downloadVideo_outcome_witness :
  exists n body,
    files (snd (downloadVideo env_broken_copy stored_video world_with_old_file))
    = <[mp4_name stored_video := [WPartial n (WText body)]]>
        (files world_with_old_file).
Proof.
  apply (downloadVideo_outcome env_broken_copy stored_video world_with_old_file
           _ (Some (ErrSaveVideo (ErrExternal "unexpected EOF")))).
  reflexivity.
Defined.

(** [downloadVideo] closes what it has opened, on every path: the file,
    once it is created, is closed last; the body of a response, once one
    is received, is closed just before; and nothing is closed that was
    not opened. *)
Theorem downloadVideo_closes (env : Env) (video : VideoEntry) (w : World) :
  exists evs,
    trace (snd (downloadVideo env video w))
    = trace w ++ evs
      ++ (if video_opened env video w
          then (if video_answered env video w then [EvCloseBody] else [])
               ++ [EvClose (mp4_name video)]
          else [])
    /\ forallb (fun e => negb (is_close e)) evs = true.
Proof.
  unfold downloadVideo, write_file, video_opened, video_answered, mp4_name.
  destruct (video_run env (now w)) as [e|videoURL].
  { exists [EvFindVideo]. split; reflexivity. }
  destruct (string_nonempty videoURL); cbn [negb andb].
  2:{ exists [EvFindVideo]. split; reflexivity. }
  cbn [now tick emit].
  destruct (os_Create env _ _).
  { eexists [EvFindVideo; EvCreate _]. split; [cbn [snd]; trace_eq | reflexivity]. }
  destruct (http_NewRequest env videoURL).
  { eexists [EvFindVideo; EvCreate _; EvNewRequest _].
    split; [cbn [snd]; trace_eq | reflexivity]. }
  cbn [now tick emit create_file].
  destruct (http_Do env _ _) as [e|resp].
  { eexists [EvFindVideo; EvCreate _; EvNewRequest _; EvHTTPDo _].
    split; [cbn [snd]; trace_eq | reflexivity]. }
  destruct (negb _).
  { eexists [EvFindVideo; EvCreate _; EvNewRequest _; EvHTTPDo _].
    split; [cbn [snd]; trace_eq | reflexivity]. }
  cbn [now tick emit create_file].
  destruct (file_write env _) as [[n e]|]; cbn [snd].
  - eexists [EvFindVideo; EvCreate _; EvNewRequest _; EvHTTPDo _].
    split; [cbn [snd]; trace_eq | reflexivity].
  - eexists [EvFindVideo; EvCreate _; EvNewRequest _; EvHTTPDo _;
             EvLog (LogVideoSaved _)].
    split; [cbn [snd]; trace_eq | reflexivity].
Qed.

(** What [downloadTranscript] returns tells the state of the transcript
    file ([.json] with [-json], [.txt] without): no error, and it holds
    the one record of the lesson, with the scraped lines joined by line
    feeds; an error of the scrape or of the creation, and no file was
    touched; an error of the write, and the file holds what was written
    before the write broke off.  It returns no other error. *)
Theorem downloadTranscript_outcome (env : Env) (video : VideoEntry)
    (saveJSON : bool) (w w' : World) (r : option Error) :
  downloadTranscript env video saveJSON w = (r, w') ->
  match r with
  | None =>
      exists lines,
        transcript_run env (now w) = inr lines
        /\ files w' = <[transcript_name video saveJSON
                        := [transcript_record video saveJSON lines]]> (files w)
  | Some (ErrScrape _) | Some (ErrCreateFile _ _) => files w' = files w
  | Some (ErrWriteJSON _) =>
      saveJSON = true
      /\ exists n lines,
           files w' = <[transcript_name video saveJSON
                          := [WPartial n (transcript_record video saveJSON lines)]]>
                        (files w)
  | Some (ErrWriteTranscript _) =>
      saveJSON = false
      /\ exists n lines,
           files w' = <[transcript_name video saveJSON
                          := [WPartial n (transcript_record video saveJSON lines)]]>
                        (files w)
  | Some _ => False
  end.
Proof.
  unfold downloadTranscript, write_file, transcript_name, transcript_record.
  destruct (transcript_run env (now w)) as [e|lines]; [now intros [= <- <-]|].
  destruct saveJSON.
  - change (filename (set_Transcript (strings_Join lines newline) video)
            +:+ "." +:+ "json")%string with (filename video +:+ ".json")%string.
    cbn [now tick emit].
    destruct (os_Create env _ _); [now intros [= <- <-]|].
    cbn [now tick emit create_file].
    destruct (file_write env _) as [[n e]|]; intros [= <- <-];
      cbn [files emit log append_file tick create_file].
    + split; [reflexivity|]. exists n, lines. now rewrite alter_insert_eq.
    + exists lines. split; [reflexivity | now rewrite alter_insert_eq].
  - change (filename (set_Transcript (strings_Join lines newline) video)
            +:+ "." +:+ "txt")%string with (filename video +:+ ".txt")%string.
    cbn [now tick emit].
    destruct (os_Create env _ _); [now intros [= <- <-]|].
    cbn [now tick emit create_file].
    destruct (file_write env _) as [[n e]|]; intros [= <- <-];
      cbn [files emit log append_file tick create_file].
    + split; [reflexivity|]. exists n, lines. now rewrite alter_insert_eq.
    + exists lines. split; [reflexivity | now rewrite alter_insert_eq].
Qed.

Lemma downloadTranscript_outcome_witness :
  exists lines,
    transcript_run example_env (now world0) = inr lines
    /\ files (snd (downloadTranscript example_env stored_video true world0))
       = <[transcript_name stored_video true
           := [transcript_record stored_video true lines]]> (files world0).
Proof.
  apply (downloadTranscript_outcome example_env stored_video true world0 _ None).
  reflexivity.
Defined.

(** ** [videoParseJS]: when it throws, and the duration *)

Lemma parse_items_throws (js : JSRuntime) (sectionName : option string)
    (videos : list TocItem) (index : Z) :
  parse_items js sectionName index videos = None ->
  Exists (fun video => item_title_text js video = None) videos.
Proof.
  revert index. induction videos as [|video rest IH]; intros index H;
    [discriminate|].
  cbn [parse_items] in H.
  destruct (item_title_text js video) eqn:Ht; [|now left].
  right. destruct (item_link video).
  - destruct (parse_items js sectionName (index + 1) rest) eqn:Hr;
      [discriminate|]. now apply IH in Hr.
  - now apply IH in H.
Qed.

(** The script throws exactly when some item of some section has no
    title text: no title element, or no text node in it that is not
    blank. *)
Theorem videoParseJS_throws_iff (js : JSRuntime) (page : list TocSection) :
  videoParseJS js page = None
  <-> Exists (fun s => Exists (fun video => item_title_text js video = None)
                              (toc_items s)) page.
Proof.
  split.
  - induction page as [|s rest IH]; [discriminate|].
    cbn [videoParseJS].
    destruct (parse_items js _ 0 (toc_items s)) eqn:Hs;
      [|intros _; left; now apply parse_items_throws in Hs].
    destruct (videoParseJS js rest); [discriminate|].
    intros _. right. now apply IH.
  - induction 1 as [s rest H|s rest _ IH]; cbn [videoParseJS].
    + now rewrite parse_items_untitled.
    + destruct (parse_items js _ 0 (toc_items s)); [|reflexivity].
      now rewrite IH.
Qed.

Lemma split_space_app (cur a b : bytes) :
  split_space cur (a ++ " "%char :: b) = split_space cur a ++ split_space [] b.
Proof.
  revert cur. induction a as [|c a IH]; intros cur; [reflexivity|].
  simpl. destruct (byte_is 32 c); simpl; now rewrite IH.
Qed.

Lemma split_space_word (cur w : bytes) :
  Forall (fun c => not_space c = true) w ->
  split_space cur w = [rev cur ++ w].
Proof.
  intros F. revert cur. induction F as [|c w Hc F IH]; intros cur.
  - simpl. now rewrite app_nil_r.
  - simpl. unfold not_space in Hc. apply negb_true_iff in Hc. rewrite Hc.
    rewrite IH. simpl. now rewrite <- app_assoc.
Qed.

Lemma concat_split_space (cur a : bytes) :
  concat (split_space cur a) = rev cur ++ List.filter not_space a.
Proof.
  revert cur. induction a as [|c a IH]; intros cur.
  - simpl. now rewrite !app_nil_r.
  - simpl. unfold not_space at 1. destruct (byte_is 32 c); simpl.
    + now rewrite IH.
    + rewrite IH. simpl. now rewrite <- app_assoc.
Qed.

(** The duration that the script keeps: of a label with a space, what
    stands before the last space, its spaces removed; of a label without
    a space, nothing. *)
Theorem drop_unit_word_spec (a w : bytes) :
  Forall (fun c => not_space c = true) w ->
  drop_unit_word (string_of (a ++ " "%char :: w))
  = string_of (List.filter not_space a)
  /\ drop_unit_word (string_of w) = EmptyString.
Proof.
  intros F. unfold drop_unit_word. rewrite !bytes_of_string_of. split.
  - rewrite split_space_app, (split_space_word [] w F).
    rewrite removelast_last, concat_split_space. reflexivity.
  - rewrite (split_space_word [] w F). reflexivity.
Qed.

Lemma drop_unit_word_spec_witness :
  drop_unit_word (string_of (bytes_of "1h 3m 12s" ++ " "%char :: bytes_of "video"))
  = string_of (List.filter not_space (bytes_of "1h 3m 12s"))
  /\ drop_unit_word (string_of (bytes_of "video")) = EmptyString.
Proof.
  apply (drop_unit_word_spec (bytes_of "1h 3m 12s") (bytes_of "video")).
  repeat constructor.
Defined.

(** ** [countSections] *)

Lemma remove_dups_shorter (l : list string) :
  (length (remove_dups l) <= length l)%nat.
Proof.
  induction l as [|x l IH]; simpl; [lia|].
  destruct (decide_rel _ _ _); simpl; lia.
Qed.

(** [countSections] counts the distinct section titles: it is the length
    of the list of titles without repetitions, at most the number of
    entries, and at least 1 when there is an entry. *)
Theorem countSections_distinct (videos : list VideoEntry) :
  countSections videos = length (remove_dups (map Section_ videos))
  /\ (countSections videos <= length videos)%nat
  /\ (videos <> [] -> (1 <= countSections videos)%nat).
Proof.
  assert (E : countSections videos = length (remove_dups (map Section_ videos))).
  { unfold countSections.
    rewrite <- (size_list_to_set (C := gset string) (remove_dups (map Section_ videos)))
      by apply NoDup_remove_dups.
    f_equal. apply set_eq. intros x.
    now rewrite !elem_of_list_to_set, elem_of_remove_dups. }
  split; [exact E|]. split.
  - rewrite E. etransitivity; [apply remove_dups_shorter|].
    now rewrite length_map.
  - intros Hne. rewrite E. destruct videos as [|v rest]; [congruence|].
    assert (Hin : Section_ v ∈ remove_dups (map Section_ (v :: rest)))
      by (apply elem_of_remove_dups; left).
    destruct (remove_dups _); [now apply elem_of_nil in Hin | simpl; lia].
Qed.

(** ** [sanitizeFileName], further *)

(** The names that [sanitizeFileName] leaves as they are are exactly
    those made of [[A-Za-z0-9._-]]. *)
Theorem sanitizeFileName_fixed_points (x : string) :
  sanitizeFileName x = x <-> in_class x.
Proof.
  unfold in_class, sanitizeFileName. split.
  - intros H. rewrite <- H at 1. rewrite bytes_of_string_of.
    apply sanitize_bytes_in_class.
  - intros H. rewrite sanitize_bytes_fixes_class by exact H.
    apply string_of_bytes_of.
Qed.

Lemma ReplaceAll_removes_length (old : bytes) (s : bytes) (skip : nat) :
  (length (ReplaceAll_from old [] skip s) <= length s)%nat.
Proof.
  revert skip. induction s as [|c t IH]; intros skip; [reflexivity|].
  cbn [ReplaceAll_from]. destruct skip as [|k].
  - destruct (bytes_prefix old (c :: t)); simpl.
    + specialize (IH (Nat.pred (length old))). lia.
    + specialize (IH 0%nat). lia.
  - specialize (IH k). simpl. lia.
Qed.

Lemma strings_TrimSpace_length (s : bytes) :
  (length (strings_TrimSpace s) <= length s)%nat.
Proof.
  unfold strings_TrimSpace, trimRightSpace.
  destruct (trimLeftSpace_spec s) as [d [Hd _]].
  destruct (trimLeftSpace_rev_spec (rev (trimLeftSpace s))) as [d' [Hd' _]].
  apply (f_equal (@length ascii)) in Hd, Hd'.
  rewrite length_app in Hd, Hd'. rewrite length_rev in Hd'.
  rewrite length_rev. lia.
Qed.

Lemma invalidRE_replace_length (c : ascii) (s : bytes) (b : bool) :
  (length (invalidRE_replace [c] b s) <= length s)%nat.
Proof.
  revert b. induction s as [|x s IH]; intros b; [reflexivity|].
  simpl. destruct (validChar x); [specialize (IH false); simpl; lia|].
  destruct b; [specialize (IH true); lia|].
  specialize (IH true). simpl. lia.
Qed.

Lemma length_string_of (b : bytes) : String.length (string_of b) = length b.
Proof. induction b as [|c b IH]; simpl; [reflexivity | now rewrite IH]. Qed.

(** [sanitizeFileName] never makes a name longer. *)
Theorem sanitizeFileName_length (x : string) :
  (String.length (sanitizeFileName x) <= String.length x)%nat.
Proof.
  unfold sanitizeFileName, sanitize_bytes, invalidRE_ReplaceAllString,
    strings_ReplaceAll.
  rewrite length_string_of.
  rewrite <- (string_of_bytes_of x) at 2. rewrite length_string_of.
  etransitivity; [apply (invalidRE_replace_length "_"%char)|].
  etransitivity; [apply strings_TrimSpace_length|].
  apply ReplaceAll_removes_length.
Qed.

(** ** [parseCourseVideos]: the first bad link *)

(** The loop stops at the first entry whose link does not parse and
    returns the bad-URL error of that link, whatever follows. *)
Theorem finish_entries_first_bad_link (net : NetURL)
    (good rest : list VideoEntry) (bad : VideoEntry) (err : Error) :
  Forall (fun v => exists u, url_Parse net (Href v) = inr u) good ->
  url_Parse net (Href bad) = inl err ->
  finish_entries net (good ++ bad :: rest) = inl (ErrBadURL err).
Proof.
  intros Hgood Hbad. rewrite finish_entries_list.
  induction Hgood as [|v good [u Hu] _ IH]; simpl.
  - now rewrite Hbad.
  - now rewrite Hu, IH.
Qed.

Lemma finish_entries_first_bad_link_witness :
  finish_entries example_net
    ([entry "Introduction" 1 "Welcome"]
       ++ {| Href := "https://example.com/learning/c/100%";
             Section_ := "Introduction"; Title := "Setup"; Index := 2;
             Duration := EmptyString; Transcript := EmptyString;
             filename := EmptyString |}
       :: [entry "Conclusion" 1 "Bye"])
  = inl (ErrBadURL (ErrExternal "invalid URL escape")).
Proof.
  apply (finish_entries_first_bad_link example_net).
  - repeat constructor. eexists. vm_compute. reflexivity.
  - reflexivity.
Defined.

(** ** Witnesses of two earlier lemmas *)


Lemma stem_componentwise_tidy_witness :
  outputStem (entry "1. Getting Started" 3 "What's new?")
  = componentwise_stem (entry "1. Getting Started" 3 "What's new?").
Proof.
  apply (stem_componentwise_tidy (entry "1. Getting Started" 3 "What's new?"));
    (split; [|split]);
    [ vm_compute; repeat constructor
    | intros c t [= <- _]; reflexivity
    | intros c t [= <- _]; reflexivity
    | vm_compute; repeat constructor
    | intros c t [= <- _]; reflexivity
    | intros c t [= <- _]; reflexivity ].
Defined.

(** ** [sanitizeFileName]: the branding *)

Lemma space2_then_space (c : ascii) : space2 c " " = false.
Proof. unfold space2. cbn. now rewrite andb_false_r. Qed.

Lemma space3_then_space (c1 c2 : ascii) : space3 c1 c2 " " = false.
Proof. unfold space3. cbn. now rewrite !andb_false_r. Qed.

(** A space added at the end is kept by the trimming on the left unless
    nothing else is left. *)
Lemma trimLeftSpace_snoc_space (x : bytes) :
  trimLeftSpace (x ++ [" "%char])
  = match trimLeftSpace x with
    | [] => []
    | r => r ++ [" "%char]
    end.
Proof.
  remember (length x) as n eqn:Hn.
  revert x Hn. induction n as [n IH] using lt_wf_ind. intros x Hn.
  destruct x as [|c1 t1]; [reflexivity|].
  cbn [app]. destruct (asciiSpace c1) eqn:E1.
  { cbn [trimLeftSpace]. rewrite E1.
    apply (IH (length t1)); [subst n; simpl; lia | reflexivity]. }
  destruct t1 as [|c2 t2].
  { cbn [app trimLeftSpace]. now rewrite E1, space2_then_space. }
  destruct (space2 c1 c2) eqn:E2.
  { cbn [app trimLeftSpace]. rewrite E1, E2.
    apply (IH (length t2)); [subst n; simpl; lia | reflexivity]. }
  destruct t2 as [|c3 t3].
  { cbn [app trimLeftSpace]. now rewrite E1, E2, space3_then_space. }
  cbn [app trimLeftSpace]. rewrite E1, E2.
  destruct (space3 c1 c2 c3) eqn:E3; [|reflexivity].
  apply (IH (length t3)); [subst n; simpl; lia | reflexivity].
Qed.

Lemma trimRightSpace_snoc_space (r : bytes) :
  trimRightSpace (r ++ [" "%char]) = trimRightSpace r.
Proof.
  unfold trimRightSpace. rewrite rev_app_distr. reflexivity.
Qed.

Lemma strings_TrimSpace_snoc_space (x : bytes) :
  strings_TrimSpace (x ++ [" "%char]) = strings_TrimSpace x.
Proof.
  unfold strings_TrimSpace. rewrite trimLeftSpace_snoc_space.
  destruct (trimLeftSpace x) as [|c r]; [reflexivity|].
  apply trimRightSpace_snoc_space.
Qed.

(** The branding that follows a title is taken off with the space before
    it: a title without a bar, followed by [" | LinkedIn Learning"],
    gives the name that the title alone gives. *)
Theorem sanitizeFileName_strips_branding (x : string) :
  no_bar (bytes_of x) ->
  sanitizeFileName (x +:+ " " +:+ branding) = sanitizeFileName x.
Proof.
  intros Hx. unfold sanitizeFileName, sanitize_bytes. f_equal.
  rewrite !bytes_of_app. change (bytes_of " ") with [" "%char].
  rewrite app_assoc.
  rewrite ReplaceAll_branding_prefix
    by (apply Forall_app; split; [exact Hx | repeat constructor]).
  rewrite (ReplaceAll_branding_no_bar [] (bytes_of x) Hx).
  replace (strings_ReplaceAll (bytes_of branding) (bytes_of branding) [])
    with (@nil ascii) by (vm_compute; reflexivity).
  rewrite app_nil_r. now rewrite strings_TrimSpace_snoc_space.
Qed.

Lemma sanitizeFileName_strips_branding_witness :
  sanitizeFileName ("Welcome to Go" +:+ " " +:+ branding)
  = sanitizeFileName "Welcome to Go".
Proof.
  apply (sanitizeFileName_strips_branding "Welcome to Go").
  vm_compute. repeat constructor.
Defined.
